(** * Warthog node: peer coordination core

    A shallow embedding of the event loop of the Warthog node
    ([src/node/eventloop/eventloop.hpp], [src/node/eventloop/types/conndata.cpp]),
    of the block body container ([block/body/container.cpp]), of the
    difficulty targets ([block/header/difficulty.hpp]) and of the API
    requests that join two answers ([api/interface.cpp]), with the
    properties the specification states about them and further properties
    read off the code.

    Conventions.
    - C++ unsigned integers are [Z] values; where the source does arithmetic
      that can wrap, the wrap-around is written out ([wrap64], [wrap32]).
    - Code that can throw or hit a failed [assert] lives in the monad
      [M]: a state transformer whose outcome is a normal return, a thrown
      [Error] (the state reached at the [throw] is kept, as in C++), or an
      abort.
    - Collaborators whose code is outside the event loop (downloaders, chain
      server, address manager) are parameters of a [Section]. *)

From Stdlib Require Import ZArith List Bool Lia Floats Uint63.
From Stdlib.Strings Require Import Byte.
From stdpp Require Import base option list gmap fin_maps.

Local Open Scope Z_scope.

(** ** Error codes ([general/errors.hpp]) *)

(** The codes the event loop raises by name; [EOTHER] stands for every other
    [int32_t] code carried by an [Error]. *)
Inductive Error : Type :=
| ECHECKSUM | EBLOCKSIZE
| ENOINIT | EINVINIT | EUNREQUESTED
| EBATCHSIZE | EEMPTY | EBADROLLBACK | EBADROLLBACKLEN | EINV_BODY
| ELOWPRIORITY | ETIMEOUT | ENOTFOUND
| EOTHER (code : Z).

(** ** Outcomes of code that may throw or abort *)

Inductive Outcome (S A : Type) : Type :=
| Ok (a : A) (s : S)
| Throw (e : Error) (s : S)
| Abort.
Arguments Ok {S A} a s.
Arguments Throw {S A} e s.
Arguments Abort {S A}.

Definition M (S A : Type) : Type := S -> Outcome S A.

Definition ret {S A} (a : A) : M S A := fun s => Ok a s.

Definition bind {S A B} (m : M S A) (k : A -> M S B) : M S B :=
  fun s => match m s with
           | Ok a s' => k a s'
           | Throw e s' => Throw e s'
           | Abort => Abort
           end.

Definition throw {S A} (e : Error) : M S A := fun s => Throw e s.

(** [assert(b)] of <cassert>. *)
Definition assert {S} (b : bool) : M S unit :=
  fun s => if b then Ok tt s else Abort.

Definition get {S} : M S S := fun s => Ok s s.
Definition gets {S A} (f : S -> A) : M S A := fun s => Ok (f s) s.
Definition modify {S} (f : S -> S) : M S unit := fun s => Ok tt (f s).

(** [try { m } catch (Error e) { h e }]. *)
Definition try_catch {S A} (m : M S A) (h : Error -> M S A) : M S A :=
  fun s => match m s with
           | Ok a s' => Ok a s'
           | Throw e s' => h e s'
           | Abort => Abort
           end.

Declare Scope monad_scope.
Delimit Scope monad_scope with M.
Notation "'let*' x ':=' m 'in' k" := (bind m (fun x => k))
  (at level 10, x name, m at level 100, k at level 200) : monad_scope.
Notation "'run' m 'then' k" := (bind m (fun _ => k))
  (at level 10, m at level 100, k at level 200) : monad_scope.
Local Open Scope monad_scope.

(** [for (auto& x : l) body(x)]. *)
Fixpoint for_each {S A} (l : list A) (body : A -> M S unit) : M S unit :=
  match l with
  | [] => ret tt
  | x :: l' => bind (body x) (fun _ => for_each l' body)
  end.

(** [size_t] and [uint32_t] arithmetic. *)
Definition wrap64 (z : Z) : Z := z mod 2 ^ 64.
Definition wrap32 (z : Z) : Z := z mod 2 ^ 32.

(** ** Block body container ([block/body/container.cpp]) *)

Module BodyContainer.
Section WithParams.

(** [MAXBLOCKSIZE] of [general/params.hpp] and [BodyStructure::parse] of
    [block/body/view.hpp] are declared outside this file's sources. *)
Variable MAXBLOCKSIZE : Z.
Variable BodyStructure NonzeroHeight BlockVersion : Type.
Variable BodyStructure_parse :
  list byte -> NonzeroHeight -> BlockVersion -> option BodyStructure.

(** [class BodyContainer { std::vector<uint8_t> bytes; }]. *)
Record t : Type := mk { bytes : list byte }.

(** [BodyContainer::BodyContainer(std::span<const uint8_t> s)]: the member
    [bytes] is default-initialised and the body only checks the size. *)
Definition from_span (s : list byte) : Error + t :=
  if MAXBLOCKSIZE <? Z.of_nat (length s)
  then inl EBLOCKSIZE
  else inr {| bytes := [] |}.

(** [BodyContainer::BodyContainer(Reader& r)]. *)
Definition from_reader (span : list byte) : t := {| bytes := span |}.

(** [BodyContainer::parse_structure]. *)
Definition parse_structure (b : t) (h : NonzeroHeight) (v : BlockVersion)
  : option BodyStructure :=
  BodyStructure_parse (bytes b) h v.

(** [BodyContainer::parse_structure_throw]. *)
Definition parse_structure_throw (b : t) (h : NonzeroHeight) (v : BlockVersion)
  : Error + BodyStructure :=
  match parse_structure b h v with
  | Some p => inr p
  | None => inl EINV_BODY
  end.

End WithParams.
End BodyContainer.

(** ** Timer wheel ([eventloop/timer.hpp]) *)

Module Timer.

(** [Timer::Event]: the tagged payloads; all but [Connect] derive from
    [Timer::WithConnecitonId]. *)
Inductive Event : Type :=
| Connect
| SendPing (conId : Z)
| CloseNoPong (conId : Z)
| CloseNoReply (conId : Z)
| Expire (conId : Z)
| ThrottledSend (conId : Z).

(** Modelled from the spec: [eventloop/timer.hpp] is not among the sources.
    The spec describes the wheel as an "ordered map from deadline to tagged
    payload" with [insert], [cancel], [popExpired] and [nextDeadline], whose
    handles are stable under insertion.  An entry carries its deadline, a key
    that is never reused (the handle) and its payload; [ordered] is kept
    sorted by deadline, entries of equal deadline in insertion order. *)
Record entry : Type := mk_entry { deadline : Z; key : nat; payload : Event }.

Record t : Type := mk { ordered : list entry; fresh : nat }.

(** [Timer::iterator]; [None] plays [timer.end()]. *)
Definition iterator : Type := nat.

Definition empty : t := {| ordered := []; fresh := O |}.

Fixpoint insert_entry (e : entry) (l : list entry) : list entry :=
  match l with
  | [] => [e]
  | x :: l' =>
      if deadline e <? deadline x then e :: x :: l'
      else x :: insert_entry e l'
  end.

(** [timer.insert(time_point, payload)]. *)
Definition insert_at (tp : Z) (ev : Event) (tm : t) : iterator * t :=
  (fresh tm,
   {| ordered := insert_entry (mk_entry tp (fresh tm) ev) (ordered tm);
      fresh := S (fresh tm) |}).

(** [timer.cancel(iterator)]. *)
Definition cancel (it : iterator) (tm : t) : t :=
  {| ordered := List.filter (fun e => negb (Nat.eqb (key e) it)) (ordered tm);
     fresh := fresh tm |}.



(** [timer.next()]; [None] is [time_point::max()]. *)
Definition next (tm : t) : option Z :=
  match ordered tm with
  | [] => None
  | e :: _ => Some (deadline e)
  end.

(** The deadlines never decrease along the wheel. *)
Fixpoint sorted (l : list entry) : Prop :=
  match l with
  | [] => True
  | x :: l' => Forall (fun y => deadline x <= deadline y) l' /\ sorted l'
  end.

End Timer.

(** ** Version-1 difficulty target ([block/header/difficulty.hpp]) *)

Module TargetV1.

(** A [TargetV1] is its [uint32_t data]; a [Hash] is a
    [std::array<uint8_t, 32>]. *)
Definition Hash : Type := list byte.

Definition is_uint32 (data : Z) : Prop := 0 <= data < 2 ^ 32.

(** [hash[i]]. *)
Definition at_ (hash : Hash) (i : Z) : Z :=
  Z.of_N (Byte.to_N (nth (Z.to_nat i) hash x00)).

(** [TargetV1::zeros8] and [TargetV1::bits24]. *)
Definition zeros8 (data : Z) : Z := Z.shiftr data 24.
Definition bits24 (data : Z) : Z := Z.land 16777215 data.

(** [for (size_t i = 0; i < n; ++i) if (hash[f i] != 0) return false;]:
    [true] when the loop falls through. *)
Definition all_zero (hash : Hash) (f : Z -> Z) (n : Z) : bool :=
  forallb (fun i => at_ hash (f (Z.of_nat i)) =? 0) (seq 0 (Z.to_nat n)).

(** The value [ntoh32] returns for the [uint32_t] whose bytes in memory are
    [d0 d1 d2 d3], in address order: they are read in network byte order. *)
Definition ntoh32_bytes (d0 d1 d2 d3 : Z) : Z :=
  Z.lor (Z.shiftl d0 24) (Z.lor (Z.shiftl d1 16) (Z.lor (Z.shiftl d2 8) d3)).

(** [TargetV1::compatible]. *)
Definition compatible (data : Z) (hash : Hash) : bool :=
  let zeros := zeros8 data in
  if 256 - 4 * 8 <? zeros then false
  else
    let bits := bits24 data in
    if Z.land bits 8388608 =? 0 then false
    else
      let zerobytes := zeros / 8 in
      let shift := Z.land zeros 7 in
      if negb (all_zero hash (fun i => 31 - i) zerobytes) then false
      else
        let threshold := wrap32 (Z.shiftl bits (8 - shift)) in
        let src := 28 - zerobytes in
        let candidate :=
          ntoh32_bytes (at_ hash (src + 3)) (at_ hash (src + 2))
            (at_ hash (src + 1)) (at_ hash src) in
        if threshold <? candidate then false
        else if candidate <? threshold then true
        else all_zero hash (fun i => i) (28 - zerobytes).

(** [TargetV1::difficulty]: [std::ldexp(1 / dbits, zeros + 24)] in IEEE
    binary64, as the kernel's primitive floats compute it. *)
Definition difficulty (data : Z) : float :=
  let zeros := zeros8 data in
  let dbits := PrimFloat.of_uint63 (Uint63.of_Z (bits24 data)) in
  Z.ldexp (1 / dbits)%float (zeros + 24).

(** The number a hash spells, [hash[31]] being its most significant byte. *)
Fixpoint hash_value (hash : Hash) : Z :=
  match hash with
  | [] => 0
  | b :: rest => Z.of_N (Byte.to_N b) + 256 * hash_value rest
  end.

(** The largest hash value a well-formed target admits:
    [bits24 * 2^(232 - zeros8)]. *)
Definition target_value (data : Z) : Z :=
  bits24 data * 2 ^ (232 - zeros8 data).

(** The mantissa has its top bit set ("first digit must be 1"). *)
Definition mantissa_normal (data : Z) : Prop :=
  Z.land (bits24 data) 8388608 <> 0.

End TargetV1.

(** ** Version-2 difficulty target ([block/header/difficulty.hpp]) *)

Module TargetV2.

(** [struct HashExponentialDigest]
    ([block/header/hash_exponential_request.hpp], not among this file's
    sources): the two fields [TargetV2::compatible] reads. *)
Record HashExponentialDigest : Type :=
  mk_digest { negExp : Z; data : Z }.

(** [TargetV2::bits22] and [TargetV2::zeros10]. *)
Definition bits22 (data : Z) : Z := Z.land 4194303 data.
Definition zeros10 (data : Z) : Z := Z.shiftr data 22.

(** [TargetV2::difficulty]: [std::ldexp(1 / dbits, zeros + 22)] in IEEE
    binary64. *)
Definition difficulty (data : Z) : float :=
  let zeros := zeros10 data in
  let dbits := PrimFloat.of_uint63 (Uint63.of_Z (bits22 data)) in
  Z.ldexp (1 / dbits)%float (zeros + 22).

(** [TargetV2::genesis_testnet], [TargetV2::initial] and
    [TargetV2::initialv2]. *)
Definition genesis_testnet : Z := Z.lor (wrap32 (Z.shiftl 29 22)) 4194303.
Definition initial : Z := Z.lor (wrap32 (Z.shiftl 43 22)) 4194303.
Definition initialv2 : Z := Z.lor (wrap32 (Z.shiftl 40 22)) 4194303.

(** [TargetV2::compatible]; [None] is the failed
    [assert(digest.negExp > 0)]. *)
Definition compatible (data : Z) (digest : HashExponentialDigest)
  : option bool :=
  let zerosTarget := zeros10 data in
  if negb (0 <? negExp digest) then None
  else
    let zerosDigest := negExp digest - 1 in
    if zerosDigest <? zerosTarget then Some false
    else if zerosTarget <? zerosDigest then Some true
    else
      let bits32 := wrap32 (Z.shiftl (bits22 data) 10) in
      Some (TargetV2.data digest <? bits32).

(** The mantissa has its top bit set ([bits22] "returns values in
    [2^21,2^22)"). *)
Definition mantissa_normal (data : Z) : Prop := 2 ^ 21 <= bits22 data.

End TargetV2.

(** ** Event loop: data ([eventloop.hpp], [types/conndata.hpp]) *)

Module Eventloop.

(** [SignedSnapshot::Priority]: the fields [importance] and [height] are read
    in [conndata.cpp].

    Modelled from the spec: the comparison operators of
    [block/chain/signed_snapshot.hpp] are not among the sources; the spec
    calls the snapshot "priority-ranked", and the order is taken to be the
    member-wise (lexicographic) one on [(importance, height)]. *)
Record Priority : Type := mk_priority { importance : Z; height : Z }.

Definition Priority_lt (p q : Priority) : bool :=
  (importance p <? importance q)
  || ((importance p =? importance q) && (height p <? height q)).

Definition Priority_le (p q : Priority) : bool :=
  (importance p <? importance q)
  || ((importance p =? importance q) && (height p <=? height q)).

Record SignedSnapshot : Type :=
  mk_snapshot { priority : Priority; snapshot_body : Z }.

(** *** Requests ([types/peer_requests.hpp]) *)

(** [struct IsRequest]: what [send_request] and the reply handlers read. *)
Record IsRequest : Type :=
  mk_req { nonce : Z; isActiveRequest : bool; expiry_time : Z }.

Record Proberequest : Type :=
  mk_probe { probe_base : IsRequest; probe_height : Z }.
Record Batchrequest : Type :=
  mk_batch { batch_base : IsRequest; minReturn : Z; max_return : Z;
             startHeight : Z }.
Record Blockrequest : Type :=
  mk_block { block_base : IsRequest; range_lower : Z; range_upper : Z }.

(** [using Request = std::variant<Proberequest, Batchrequest, Blockrequest>]. *)
Inductive Request : Type :=
| ReqProbe (r : Proberequest)
| ReqBatch (r : Batchrequest)
| ReqBlock (r : Blockrequest).

(** The job variant the spec describes: "one of {idle sentinel,
    awaiting-init, probe request, batch request, block request}". *)
Inductive JobData : Type :=
| Monostate
| AwaitInit
| JobProbe (r : Proberequest)
| JobBatch (r : Batchrequest)
| JobBlock (r : Blockrequest).

Definition job_of_request (r : Request) : JobData :=
  match r with
  | ReqProbe p => JobProbe p
  | ReqBatch b => JobBatch b
  | ReqBlock b => JobBlock b
  end.

Definition request_base (r : Request) : IsRequest :=
  match r with
  | ReqProbe p => probe_base p
  | ReqBatch b => batch_base b
  | ReqBlock b => block_base b
  end.

(** [class ConnectionJob : Timerref]: the variant [data_v] and the handle
    of the job timer. *)
Record ConnectionJob : Type :=
  mk_job { data_v : JobData; job_timer : option Timer.iterator }.

(** Modelled from the spec: the ping state of [types/conndata.hpp] is not
    among the sources; "every peer owns at most one ping timer". *)
Record Ping : Type := mk_ping { ping_timer : option Timer.iterator }.

(** *** Outgoing buffers and observable effects *)

(** [Sndbuffer], kept as the message it serialises. *)
Inductive Sndbuffer : Type :=
| SndBlockrep (nonce : Z) (blocks : list BodyContainer.t)
| SndRequest (r : Request)
| SndInit
| SndOther (tag : Z).

(** Modelled from the spec: the throttled send queue of [types/conndata.hpp]
    is not among the sources.  "Throttled send queue per peer: accepts
    buffers with a minimum gap; when the gap is violated, a ThrottledSend
    timer is armed and the buffer drains on expiry"; "ThrottledSend drains
    one buffer per fire; queue-head gap rearms the timer".  [th_queue] holds
    the buffers not yet sent, [th_timer] the armed ThrottledSend timer, and
    [th_next] the earliest time the next buffer may leave. *)
Record Throttled : Type :=
  mk_throttled { th_queue : list Sndbuffer;
                 th_timer : option Timer.iterator;
                 th_next : Z }.

Inductive ChainOffender : Type :=
  mk_offender (e : Error) (offender_height : Z) (conId : Z).

(** What the loop does to the outside: posts to the transport, to the chain
    server, to the header downloader, and wake-ups of the worker. *)
Inductive Effect : Type :=
| AsyncSend (conId : Z) (b : Sndbuffer)
| AsyncClose (conId : Z) (e : Error)
| AsyncConnect (address : Z)
| CvNotifyOne
| AsyncSetSignedCheckpoint (ss : SignedSnapshot)
| HeaderDownloadOnResponse (conId : Z) (req : Batchrequest) (batch : list Z).

(** *** Incoming messages ([communication/messages.hpp]) *)

(** The sixteen typed variants; the fields kept are those the modelled
    handlers read ([batch] is the list of headers of a batch reply). *)
Inductive Message : Type :=
| PingMsg (nonce : Z) (sp : Priority)
| PongMsg (nonce : Z)
| BatchreqMsg (nonce : Z)
| BatchrepMsg (nonce : Z) (batch : list Z)
| ProbereqMsg (nonce : Z)
| ProberepMsg (nonce : Z) (requested : bool)
| BlockreqMsg (nonce : Z) (lower upper : Z)
| BlockrepMsg (nonce : Z) (blocks : list BodyContainer.t)
| InitMsg
| AppendMsg
| SignedPinRollbackMsg
| ForkMsg
| TxnotifyMsg
| TxreqMsg
| TxrepMsg
| LeaderMsg (signedSnapshot : SignedSnapshot).

Definition is_InitMsg (m : Message) : bool :=
  match m with InitMsg => true | _ => false end.

(** [Rcvbuffer] as the dispatcher sees it: the result of [verify()] and the
    result of [parse()], which returns a message or throws. *)
Record Rcvbuffer : Type :=
  mk_rcv { verify : bool; parse : Error + Message }.

(** [class Connection]: the two flags the loop writes, and the messages the
    transport has buffered for [extractMessages()]. *)
Record Connection : Type :=
  mk_conn { eventloop_registered : bool; eventloop_erased : bool;
            inbox : list Rcvbuffer }.

(** [struct PeerState]. *)
Record PeerState : Type :=
  mk_peer { job : ConnectionJob; ping : Ping; throttled : Throttled;
            lastNonce : Z;
            theirSnapshotPriority : Priority;
            acknowledgedSnapshotPriority : Priority }.

(** [Eventloop::Event]: the entries of the event queue. *)
Inductive Event : Type :=
| OnRelease (conId : Z) (error : Error)
| OnProcessConnection (conId : Z)
| StateUpdate
| SignedSnapshotCb
| GetPeers
| SyncedCb
| StageResult
| OnForwardBlockrep (conId : Z) (blocks : list BodyContainer.t)
| OnFailedAddressEvent (address : Z)
| InspectorCb
| GetHashrate
| GetHashrateChart
| OnPinAddress (address : Z)
| OnUnpinAddress (address : Z)
| MempoolLog.

Section WithCollaborators.

(** The state of the collaborators the loop holds or refers to: chain
    server, chain cache, mempool, both downloaders, the address book. *)
Variable Ext : Type.

(** [class Eventloop]: the private data, the mutex-protected variables, the
    [Connection] objects it shares with the transport ([conns]), the
    steady clock ([clock]) and the effects posted so far ([out]). *)
Record State : Type :=
  mk_state { ext : Ext;
             conns : gmap Z Connection;
             peers : gmap Z PeerState;
             timer : Timer.t;
             wakeupTimer : option (Timer.iterator * Z);
             activeRequests : Z;
             maxRequests : Z;
             clock : Z;
             haswork : bool;
             closeReason : Z;
             events : list Event;
             out : list Effect }.

Definition set_ext (x : Ext) (s : State) : State :=
  mk_state x (conns s) (peers s) (timer s) (wakeupTimer s) (activeRequests s)
    (maxRequests s) (clock s) (haswork s) (closeReason s) (events s) (out s).
Definition set_conns (x : gmap Z Connection) (s : State) : State :=
  mk_state (ext s) x (peers s) (timer s) (wakeupTimer s) (activeRequests s)
    (maxRequests s) (clock s) (haswork s) (closeReason s) (events s) (out s).
Definition set_peers (x : gmap Z PeerState) (s : State) : State :=
  mk_state (ext s) (conns s) x (timer s) (wakeupTimer s) (activeRequests s)
    (maxRequests s) (clock s) (haswork s) (closeReason s) (events s) (out s).
Definition set_timer (x : Timer.t) (s : State) : State :=
  mk_state (ext s) (conns s) (peers s) x (wakeupTimer s) (activeRequests s)
    (maxRequests s) (clock s) (haswork s) (closeReason s) (events s) (out s).
Definition set_wakeupTimer (x : option (Timer.iterator * Z)) (s : State)
  : State :=
  mk_state (ext s) (conns s) (peers s) (timer s) x (activeRequests s)
    (maxRequests s) (clock s) (haswork s) (closeReason s) (events s) (out s).
Definition set_activeRequests (x : Z) (s : State) : State :=
  mk_state (ext s) (conns s) (peers s) (timer s) (wakeupTimer s) x
    (maxRequests s) (clock s) (haswork s) (closeReason s) (events s) (out s).
Definition set_haswork (x : bool) (s : State) : State :=
  mk_state (ext s) (conns s) (peers s) (timer s) (wakeupTimer s)
    (activeRequests s) (maxRequests s) (clock s) x (closeReason s) (events s)
    (out s).
Definition set_closeReason (x : Z) (s : State) : State :=
  mk_state (ext s) (conns s) (peers s) (timer s) (wakeupTimer s)
    (activeRequests s) (maxRequests s) (clock s) (haswork s) x (events s)
    (out s).
Definition set_events (x : list Event) (s : State) : State :=
  mk_state (ext s) (conns s) (peers s) (timer s) (wakeupTimer s)
    (activeRequests s) (maxRequests s) (clock s) (haswork s) (closeReason s) x
    (out s).
Definition emit_effect (x : Effect) (s : State) : State :=
  mk_state (ext s) (conns s) (peers s) (timer s) (wakeupTimer s)
    (activeRequests s) (maxRequests s) (clock s) (haswork s) (closeReason s)
    (events s) (out s ++ [x]).

(** *** Collaborators *)

(** Calls into code outside the event loop, as functions of the
    collaborators' state.  [hd_*] is the header downloader, [bd_*] the block
    downloader, [connections_*] the address manager. *)
Variable hd_erase : Z -> Ext -> bool * Ext.
Variable bd_erase : Z -> Ext -> bool * Ext.
Variable connections_erase : Z -> Ext -> bool * Ext.
Variable connections_admit : Z -> Ext -> option Error * Ext.
Variable wakeup_time : Ext -> option Z.
Variable pop_connect : Ext -> list Z * Ext.
Variable coordinate_sync : Ext -> Ext.
Variable insert_downloaders : Z -> Ext -> Ext.
Variable hd_on_response :
  Z -> Batchrequest -> list Z -> Ext -> list ChainOffender * Ext.
Variable on_request_expired_downloaders : Z -> Request -> Ext -> Ext.

(** [config().localDebug]. *)
Variable localDebug : bool.

Definition seconds (n : Z) : Z := 1000 * n.
Definition minutes (n : Z) : Z := 60000 * n.

Local Abbreviation Loop := (M State).

Definition emit (e : Effect) : Loop unit := modify (emit_effect e).

Definition call_ext {A} (f : Ext -> A * Ext) : Loop A :=
  fun s => let '(a, x) := f (ext s) in Ok a (set_ext x s).

(** Dereferencing a [shared_ptr<Connection>] or a [Conref]; a dangling
    reference aborts. *)
Definition conn_of (c : Z) : Loop Connection :=
  fun s => match conns s !! c with
           | Some con => Ok con s
           | None => Abort
           end.
Definition peer_of (cr : Z) : Loop PeerState :=
  fun s => match peers s !! cr with
           | Some p => Ok p s
           | None => Abort
           end.
Definition put_conn (c : Z) (con : Connection) : Loop unit :=
  modify (fun s => set_conns (<[c := con]> (conns s)) s).
Definition put_peer (cr : Z) (p : PeerState) : Loop unit :=
  modify (fun s => set_peers (<[cr := p]> (peers s)) s).

Definition set_job (j : ConnectionJob) (p : PeerState) : PeerState :=
  mk_peer j (ping p) (throttled p) (lastNonce p) (theirSnapshotPriority p)
    (acknowledgedSnapshotPriority p).
Definition set_ping (x : Ping) (p : PeerState) : PeerState :=
  mk_peer (job p) x (throttled p) (lastNonce p) (theirSnapshotPriority p)
    (acknowledgedSnapshotPriority p).
Definition set_throttled (x : Throttled) (p : PeerState) : PeerState :=
  mk_peer (job p) (ping p) x (lastNonce p) (theirSnapshotPriority p)
    (acknowledgedSnapshotPriority p).
Definition set_lastNonce (x : Z) (p : PeerState) : PeerState :=
  mk_peer (job p) (ping p) (throttled p) x (theirSnapshotPriority p)
    (acknowledgedSnapshotPriority p).
Definition set_theirSnapshotPriority (x : Priority) (p : PeerState)
  : PeerState :=
  mk_peer (job p) (ping p) (throttled p) (lastNonce p) x
    (acknowledgedSnapshotPriority p).
Definition set_acknowledgedSnapshotPriority (x : Priority) (p : PeerState)
  : PeerState :=
  mk_peer (job p) (ping p) (throttled p) (lastNonce p)
    (theirSnapshotPriority p) x.

(** Modelled from the spec: [connections.find(conId)] of the address
    manager is not among the sources.  The registry is "a set of peer
    records keyed by connection id"; a peer whose [erased] flag the loop has
    flipped is no longer found. *)
Definition find (conId : Z) (s : State) : option PeerState :=
  match peers s !! conId, conns s !! conId with
  | Some p, Some con => if eventloop_erased con then None else Some p
  | _, _ => None
  end.

(** *** Timer access *)

(** [timer.insert(duration, payload)]. *)
Definition timer_insert (d : Z) (ev : Timer.Event) : Loop Timer.iterator :=
  fun s => let '(it, tm) := Timer.insert_at (clock s + d) ev (timer s) in
           Ok it (set_timer tm s).
(** [timer.insert(time_point, payload)]. *)
Definition timer_insert_at (tp : Z) (ev : Timer.Event)
  : Loop Timer.iterator :=
  fun s => let '(it, tm) := Timer.insert_at tp ev (timer s) in
           Ok it (set_timer tm s).
Definition timer_cancel (it : Timer.iterator) : Loop unit :=
  modify (fun s => set_timer (Timer.cancel it (timer s)) s).
Definition cancel_if_armed (it : option Timer.iterator) : Loop unit :=
  match it with
  | Some i => timer_cancel i
  | None => ret tt
  end.

(** [void Conref::send(Sndbuffer b)]. *)
Definition send (cr : Z) (b : Sndbuffer) : Loop unit :=
  let* con := conn_of cr in
  if eventloop_erased con then ret tt else emit (AsyncSend cr b).

(** [Eventloop::connect_scheduled]. *)
Definition connect_scheduled : Loop unit :=
  let* addrs := call_ext pop_connect in
  for_each addrs (fun a => emit (AsyncConnect a)).

(** [Eventloop::update_wakeup]. *)
Definition update_wakeup : Loop unit :=
  let* s := get in
  let wakeupTime := wakeup_time (ext s) in
  if match wakeupTimer s, wakeupTime with
     | Some (_, first), Some w => w =? first
     | _, _ => false
     end
  then ret tt
  else
    run match wakeupTimer s with
        | Some (it, _) =>
            run timer_cancel it then modify (set_wakeupTimer None)
        | None => ret tt
        end then
    match wakeupTime with
    | None => ret tt
    | Some w =>
        let* it := timer_insert_at w Timer.Connect in
        modify (set_wakeupTimer (Some (it, w)))
    end.

(** *** The per-peer job *)

(** Modelled from the spec: [IsRequest::unref_active_requests] of
    [types/peer_requests.hpp] is not among the sources.  A request counts
    toward the global bound while it "is active"; taking it out of the
    count clears the flag, so that it is counted out once. *)
Definition unref_base (r : IsRequest) (n : Z) : IsRequest * Z :=
  if isActiveRequest r
  then (mk_req (nonce r) false (expiry_time r), wrap64 (n - 1))
  else (r, n).

(** [ConnectionJob::unref_active_requests]: visits [data_v]. *)
Definition unref_data (d : JobData) (n : Z) : JobData * Z :=
  match d with
  | JobProbe r =>
      let '(b, n') := unref_base (probe_base r) n in
      (JobProbe (mk_probe b (probe_height r)), n')
  | JobBatch r =>
      let '(b, n') := unref_base (batch_base r) n in
      (JobBatch (mk_batch b (minReturn r) (max_return r) (startHeight r)), n')
  | JobBlock r =>
      let '(b, n') := unref_base (block_base r) n in
      (JobBlock (mk_block b (range_lower r) (range_upper r)), n')
  | Monostate | AwaitInit => (d, n)
  end.

Definition unref_active_requests (cr : Z) : Loop unit :=
  let* p := peer_of cr in
  let* s := get in
  let '(d, n) := unref_data (data_v (job p)) (activeRequests s) in
  run modify (set_activeRequests n) then
  put_peer cr (set_job (mk_job d (job_timer (job p))) p).

(** [ConnectionJob::awaiting_init]. *)
Definition awaiting_init (j : ConnectionJob) : bool :=
  match data_v j with AwaitInit => true | _ => false end.

(** Modelled from the spec: [ConnectionJob::assign] is not among the
    sources: the request becomes the peer's job and the [Expire] timer its
    job timer ("a peer with an outstanding request has exactly one Expire
    timer armed for that request"). *)
Definition assign (cr : Z) (t : Timer.iterator) (req : Request) : Loop unit :=
  let* p := peer_of cr in
  put_peer cr (set_job (mk_job (job_of_request req) (Some t)) p).

(** Modelled from the spec: [Timerref::reset_expired],
    [Timerref::restart_expired] and [ConnectionJob::reset_notexpired] are not
    among the sources.  [reset_expired] forgets a timer that has fired;
    [restart_expired] replaces it by a new one; [reset_notexpired] cancels a
    timer that has not fired and makes the peer idle. *)
Definition job_reset_expired (cr : Z) : Loop unit :=
  let* p := peer_of cr in
  put_peer cr (set_job (mk_job (data_v (job p)) None) p).
Definition ping_reset_expired (cr : Z) : Loop unit :=
  let* p := peer_of cr in
  put_peer cr (set_ping (mk_ping None) p).
Definition job_restart_expired (cr : Z) (t : Timer.iterator) : Loop unit :=
  let* p := peer_of cr in
  put_peer cr (set_job (mk_job (data_v (job p)) (Some t)) p).
Definition job_reset_notexpired (cr : Z) : Loop unit :=
  let* p := peer_of cr in
  run cancel_if_armed (job_timer (job p)) then
  put_peer cr (set_job (mk_job Monostate None) p).

Definition as_probe (d : JobData) : option Proberequest :=
  match d with JobProbe r => Some r | _ => None end.
Definition as_batch (d : JobData) : option Batchrequest :=
  match d with JobBatch r => Some r | _ => None end.
Definition as_block (d : JobData) : option Blockrequest :=
  match d with JobBlock r => Some r | _ => None end.

(** Modelled from the spec: [ConnectionJob::pop_req] is not among the
    sources.  A reply is "correlated against the peer's current job by nonce
    (else EUNREQUESTED)": the job must hold a request of the reply's kind
    with the reply's nonce; it is then counted out, its timer cancelled, and
    the peer becomes idle. *)
Definition pop_req {A} (sel : JobData -> option A) (base : A -> IsRequest)
    (cr : Z) (rep_nonce : Z) : Loop A :=
  let* p := peer_of cr in
  match sel (data_v (job p)) with
  | Some r =>
      if nonce (base r) =? rep_nonce
      then
        run unref_active_requests cr then
        run job_reset_notexpired cr then
        ret r
      else throw EUNREQUESTED
  | None => throw EUNREQUESTED
  end.

(** *** Closing a peer *)

(** [Eventloop::erase]. *)
Definition erase (c : Z) (error : Error) : Loop unit :=
  let* con := conn_of c in
  if eventloop_erased con then ret tt
  else
    run put_conn c (mk_conn (eventloop_registered con) true (inbox con)) then
    run unref_active_requests c then
    let* p := peer_of c in
    run cancel_if_armed (ping_timer (ping p)) then
    run cancel_if_armed (job_timer (job p)) then
    let* _logged := call_ext (hd_erase c) in
    let* resync := call_ext (bd_erase c) in
    run (if resync : bool
         then modify (fun s => set_ext (coordinate_sync (ext s)) s)
         else ret tt) then
    let* rewake := call_ext (connections_erase c) in
    if rewake : bool then update_wakeup else ret tt.

(** [Eventloop::close(Conref, Error)]. *)
Definition close (cr : Z) (reason : Error) : Loop unit :=
  let* con := conn_of cr in
  if negb (eventloop_registered con) then ret tt
  else
    run emit (AsyncClose cr reason) then
    erase cr reason.

(** [Eventloop::close_by_id]. *)
Definition close_by_id (conId : Z) (reason : Error) : Loop unit :=
  let* s := get in
  match find conId s with
  | Some _ => close conId reason
  | None => ret tt
  end.

(** [Eventloop::close(const ChainOffender&)]; [report] has an empty body. *)
Definition close_offender (o : ChainOffender) : Loop unit :=
  match o with
  | mk_offender e _ conId =>
      let* s := get in
      match find conId s with
      | Some _ => close conId e
      | None => ret tt
      end
  end.

(** *** Throttled sending *)

(** Modelled from the spec: the operations of the throttled queue (see
    [Throttled]).  A timer is armed when a buffer waits and none is armed,
    for the earliest time the buffer may leave; a throttle of [d] moves that
    time [d] past the later of now and its old value. *)
Definition throttled_update_timer (conId : Z) : Loop unit :=
  let* p := peer_of conId in
  let th := throttled p in
  match th_timer th, th_queue th with
  | None, _ :: _ =>
      let* s := get in
      let* it := timer_insert_at (Z.max (clock s) (th_next th))
                   (Timer.ThrottledSend conId) in
      put_peer conId
        (set_throttled (mk_throttled (th_queue th) (Some it) (th_next th)) p)
  | _, _ => ret tt
  end.

Definition throttled_insert (conId : Z) (b : Sndbuffer) : Loop unit :=
  let* p := peer_of conId in
  let th := throttled p in
  run put_peer conId
        (set_throttled
           (mk_throttled (th_queue th ++ [b]) (th_timer th) (th_next th)) p)
  then throttled_update_timer conId.

Definition throttled_add_throttle (conId : Z) (d : Z) : Loop unit :=
  let* p := peer_of conId in
  let* s := get in
  let th := throttled p in
  put_peer conId
    (set_throttled
       (mk_throttled (th_queue th) (th_timer th)
          (Z.max (clock s) (th_next th) + d)) p).

Definition throttled_reset_timer_get_buf (conId : Z) : Loop Sndbuffer :=
  let* p := peer_of conId in
  let th := throttled p in
  match th_queue th with
  | [] => fun _ => Abort
  | b :: q =>
      run put_peer conId
            (set_throttled (mk_throttled q None (th_next th)) p)
      then ret b
  end.

(** [Eventloop::send_throttled]. *)
Definition send_throttled (cr : Z) (b : Sndbuffer) (d : Z) : Loop unit :=
  run throttled_insert cr b then
  throttled_add_throttle cr d.

(** [Eventloop::handle_event(OnForwardBlockrep&&)]. *)
Definition handle_event_OnForwardBlockrep
    (conId : Z) (blocks : list BodyContainer.t) : Loop unit :=
  let* s := get in
  match find conId s with
  | Some p => send_throttled conId (SndBlockrep (lastNonce p) blocks)
                (seconds 1)
  | None => ret tt
  end.

(** *** Issuing requests *)

(** [Eventloop::send_request]. *)
Definition send_request (c : Z) (req : Request) : Loop unit :=
  let* t := timer_insert (expiry_time (request_base req)) (Timer.Expire c) in
  run assign c t req then
  run (if isActiveRequest (request_base req)
       then
         let* s := get in
         run assert (activeRequests s <? maxRequests s) then
         modify (set_activeRequests (wrap64 (activeRequests s + 1)))
       else ret tt) then
  send c (SndRequest req).

(** [RequestSender::send] and [RequestSender::finished]. *)
Definition RequestSender_send (cr : Z) (req : Request) : Loop unit :=
  send_request cr req.
Definition RequestSender_finished (s : State) : bool :=
  maxRequests s <=? activeRequests s.

(** *** Handlers that stay abstract *)

(** [do_requests], [initialize_block_download] and [update_sync_state] run
    the downloaders, which call back into the loop; the handlers of the
    messages and events not modelled below are parameters too. *)
Variable do_requests : Loop unit.
Variable initialize_block_download : Loop unit.
Variable update_sync_state : Loop unit.
Variable handle_msg_other : Z -> Message -> Loop unit.
Variable handle_event_other : Event -> Loop unit.
Variable handle_proberep : Z -> Proberequest -> bool -> Loop unit.
Variable handle_blockrep :
  Z -> Blockrequest -> list BodyContainer.t -> Loop unit.

(** *** Ping cycle *)

(** [Eventloop::send_ping_await_pong]; the ping message is [SndOther 0]. *)
Definition send_ping_await_pong (c : Z) : Loop unit :=
  let* t := timer_insert (if localDebug then minutes 10 else minutes 1)
              (Timer.CloseNoPong c) in
  let* p := peer_of c in
  run put_peer c (set_ping (mk_ping (Some t)) p) then
  send c (SndOther 0).

(** *** Timeouts *)

(** [Eventloop::on_request_expired], the three overloads. *)
Definition on_request_expired (cr : Z) (req : Request) : Loop unit :=
  run modify (fun s =>
        set_ext (on_request_expired_downloaders cr req (ext s)) s) then
  do_requests.

(** [Eventloop::handle_connection_timeout], the five overloads. *)
Definition handle_connection_timeout_CloseNoReply (cr : Z) : Loop unit :=
  run job_reset_expired cr then
  close cr ETIMEOUT.

Definition handle_connection_timeout_CloseNoPong (cr : Z) : Loop unit :=
  run ping_reset_expired cr then
  close cr ETIMEOUT.

Definition handle_connection_timeout_SendPing (cr : Z) : Loop unit :=
  run ping_reset_expired cr then
  send_ping_await_pong cr.

Definition handle_connection_timeout_ThrottledSend (cr : Z) : Loop unit :=
  let* b := throttled_reset_timer_get_buf cr in
  run send cr b then
  throttled_update_timer cr.

(** The visit of [data_v] in the [Expire] overload: the job must hold a
    request ([assert(false)] otherwise); it is counted out and handed on. *)
Definition as_request (d : JobData) : option Request :=
  match d with
  | JobProbe r => Some (ReqProbe r)
  | JobBatch r => Some (ReqBatch r)
  | JobBlock r => Some (ReqBlock r)
  | Monostate | AwaitInit => None
  end.

Definition expire_job (cr : Z) : Loop Request :=
  let* t := timer_insert (if localDebug then minutes 10 else minutes 2)
              (Timer.CloseNoReply cr) in
  run job_restart_expired cr t then
  let* p := peer_of cr in
  match as_request (data_v (job p)) with
  | Some _ =>
      run unref_active_requests cr then
      let* p' := peer_of cr in
      match as_request (data_v (job p')) with
      | Some v => ret v
      | None => fun _ => Abort
      end
  | None => fun _ => Abort
  end.

Definition handle_connection_timeout_Expire (cr : Z) : Loop unit :=
  let* v := expire_job cr in
  on_request_expired cr v.

(** [Eventloop::handle_timeout(Timer::Connect&&)]. *)
Definition handle_timeout_Connect : Loop unit :=
  run modify (set_wakeupTimer None) then
  run connect_scheduled then
  update_wakeup.

(** [Eventloop::handle_timeout(T&&)] for the payloads with a connection
    id, and the visit in [Eventloop::work]. *)
Definition with_connection (conId : Z) (k : Z -> Loop unit) : Loop unit :=
  let* s := get in
  match find conId s with
  | Some _ => k conId
  | None => ret tt
  end.

Definition handle_timeout (t : Timer.Event) : Loop unit :=
  match t with
  | Timer.Connect => handle_timeout_Connect
  | Timer.SendPing c => with_connection c handle_connection_timeout_SendPing
  | Timer.CloseNoPong c =>
      with_connection c handle_connection_timeout_CloseNoPong
  | Timer.CloseNoReply c =>
      with_connection c handle_connection_timeout_CloseNoReply
  | Timer.Expire c => with_connection c handle_connection_timeout_Expire
  | Timer.ThrottledSend c =>
      with_connection c handle_connection_timeout_ThrottledSend
  end.

(** *** Message handlers *)

(** [Eventloop::insert]: always returns [true]. *)
Definition insert (c : Z) : Loop bool :=
  run modify (fun s => set_ext (insert_downloaders c (ext s)) s) then
  run send_ping_await_pong c then
  ret true.

(** [Eventloop::handle_msg(Conref, InitMsg&&)]. *)
Definition handle_msg_Init (cr : Z) : Loop unit :=
  run job_reset_notexpired cr then
  let* doRequests := insert cr in
  if doRequests : bool then do_requests else ret tt.

(** [Eventloop::handle_msg(Conref, LeaderMsg&&)]. *)
Definition handle_msg_Leader (cr : Z) (msg : SignedSnapshot) : Loop unit :=
  let* p := peer_of cr in
  if Priority_le (priority msg) (acknowledgedSnapshotPriority p)
  then close cr ELOWPRIORITY
  else
    let p1 := set_acknowledgedSnapshotPriority (priority msg) p in
    let p2 := if Priority_lt (theirSnapshotPriority p1) (priority msg)
              then set_theirSnapshotPriority (priority msg) p1
              else p1 in
    run put_peer cr p2 then
    emit (AsyncSetSignedCheckpoint msg).

(** [Eventloop::handle_msg(Conref, BatchrepMsg&&)].  The hand-over to
    [headerDownload.on_response] is recorded in [out]. *)
Definition handle_msg_Batchrep (cr : Z) (rep_nonce : Z) (batch : list Z)
  : Loop unit :=
  let* req := pop_req as_batch batch_base cr rep_nonce in
  let size := Z.of_nat (length batch) in
  if (size <? minReturn req) || (max_return req <? size)
  then close_offender (mk_offender EBATCHSIZE (startHeight req) cr)
  else
    run emit (HeaderDownloadOnResponse cr req batch) then
    let* offenders := call_ext (hd_on_response cr req batch) in
    run for_each offenders close_offender then
    run initialize_block_download then
    do_requests.

(** [Eventloop::handle_msg(Conref, ProberepMsg&&)] and
    [Eventloop::handle_msg(Conref, BlockrepMsg&&)]: the request is popped,
    the rest runs in the downloaders. *)
Definition handle_msg_Proberep (cr : Z) (rep_nonce : Z) (requested : bool)
  : Loop unit :=
  let* req := pop_req as_probe probe_base cr rep_nonce in
  handle_proberep cr req requested.

Definition handle_msg_Blockrep (cr : Z) (rep_nonce : Z)
    (blocks : list BodyContainer.t) : Loop unit :=
  let* req := pop_req as_block block_base cr rep_nonce in
  run try_catch (handle_blockrep cr req blocks) (fun e => close cr e) then
  do_requests.

(** The [std::visit] at the end of [dispatch_message]. *)
Definition handle_msg (cr : Z) (m : Message) : Loop unit :=
  match m with
  | InitMsg => handle_msg_Init cr
  | LeaderMsg ss => handle_msg_Leader cr ss
  | BatchrepMsg n batch => handle_msg_Batchrep cr n batch
  | ProberepMsg n requested => handle_msg_Proberep cr n requested
  | BlockrepMsg n blocks => handle_msg_Blockrep cr n blocks
  | _ => handle_msg_other cr m
  end.

(** [Eventloop::dispatch_message]. *)
Definition dispatch_message (cr : Z) (msg : Rcvbuffer) : Loop unit :=
  if negb (verify msg) then throw ECHECKSUM
  else
    match parse msg with
    | inl e => throw e
    | inr m =>
        let* p := peer_of cr in
        run (if awaiting_init (job p)
             then if negb (is_InitMsg m) then throw ENOINIT else ret tt
             else if is_InitMsg m then throw EINVINIT else ret tt) then
        handle_msg cr m
    end.

(** The loop over the extracted messages in [process_connection]: [false]
    of the [try] block is the [break], the test of [eventloop_erased] the
    [return]. *)
Fixpoint process_messages (cr : Z) (messages : list Rcvbuffer) : Loop unit :=
  match messages with
  | [] => ret tt
  | msg :: rest =>
      let* go_on :=
        try_catch (run dispatch_message cr msg then ret true)
          (fun e => run close cr e then run do_requests then ret false) in
      if go_on : bool
      then
        let* con := conn_of cr in
        if eventloop_erased con then ret tt else process_messages cr rest
      else ret tt
  end.

(** [Eventloop::send_init]. *)
Definition send_init (cr : Z) : Loop unit := send cr SndInit.

(** Modelled from the spec: [connections.insert] of the address manager is
    not among the sources.  It "errors when the peer fails admission (e.g.,
    duplicate, banned).  On success allocates a CloseNoReply job timer
    (30 s)", which is the constructor [ConnectionJob::ConnectionJob] of
    [conndata.cpp]; a new peer awaits the Init message. *)
Definition connections_insert (c : Z) : Loop (option Error) :=
  let* error := call_ext (connections_admit c) in
  match error with
  | Some e => ret (Some e)
  | None =>
      let* t := timer_insert (seconds 30) (Timer.CloseNoReply c) in
      run put_peer c
            (mk_peer (mk_job AwaitInit (Some t)) (mk_ping None)
               (mk_throttled [] None 0) 0
               (mk_priority 0 0) (mk_priority 0 0)) then
      ret None
  end.

(** [c->extractMessages()]. *)
Definition extractMessages (c : Z) : Loop (list Rcvbuffer) :=
  let* con := conn_of c in
  run put_conn c
        (mk_conn (eventloop_registered con) (eventloop_erased con) []) then
  ret (inbox con).

(** [Eventloop::process_connection]. *)
Definition process_connection (c : Z) : Loop unit :=
  let* con := conn_of c in
  if eventloop_erased con then ret tt
  else
    let* admitted :=
      if negb (eventloop_registered con)
      then
        run put_conn c (mk_conn true (eventloop_erased con) (inbox con)) then
        let* error := connections_insert c in
        run update_wakeup then
        run connect_scheduled then
        match error with
        | Some e =>
            run emit (AsyncClose c e) then
            let* con' := conn_of c in
            run put_conn c
                  (mk_conn (eventloop_registered con') true (inbox con')) then
            ret false
        | None => run send_init c then ret true
        end
      else ret true in
    if admitted : bool
    then
      let* messages := extractMessages c in
      process_messages c messages
    else ret tt.

(** *** Events *)

(** [Eventloop::handle_event(OnRelease&&)]. *)
Definition handle_event_OnRelease (c : Z) (error : Error) : Loop unit :=
  let* con := conn_of c in
  if negb (eventloop_erased con) && eventloop_registered con
  then erase c error
  else ret tt.


(** [Eventloop::defer]: runs under the mutex, on any thread. *)
Definition defer (e : Event) (s : State) : bool * State :=
  if negb (closeReason s =? 0)
  then (false, s)
  else (true,
        emit_effect CvNotifyOne
          (set_events (events s ++ [e]) (set_haswork true s))).

(** [Eventloop::async_shutdown]. *)
Definition async_shutdown (reason : Z) (s : State) : State :=
  emit_effect CvNotifyOne (set_closeReason reason (set_haswork true s)).

(** [Eventloop::has_work]. *)
Definition has_work (s : State) : bool :=
  haswork s
  || match Timer.next (timer s) with
     | Some d => d <? clock s
     | None => false
     end.

(** Modelled from the spec: [connections.garbage_collect] of the address
    manager is not among the sources ("run connection garbage collection"):
    the records of the peers the loop has erased leave the registry. *)
Definition is_erased (cs : gmap Z Connection) (c : Z) : bool :=
  match cs !! c with
  | Some con => eventloop_erased con
  | None => true
  end.





(** ** Event loop: properties *)

Set Default Proof Using "Type".

Arguments set_ext _ _ /.
Arguments set_conns _ _ /.
Arguments set_peers _ _ /.
Arguments set_timer _ _ /.
Arguments set_wakeupTimer _ _ /.
Arguments set_activeRequests _ _ /.
Arguments set_haswork _ _ /.
Arguments set_closeReason _ _ /.
Arguments set_events _ _ /.
Arguments emit_effect _ _ /.

(** Unfolds the monad's combinators in the goal. *)
Ltac munfold :=
  unfold bind, ret, get, gets, modify, throw, assert, try_catch, emit,
    call_ext, conn_of, peer_of, put_conn, put_peer, timer_insert,
    timer_insert_at, timer_cancel, cancel_if_armed.

Tactic Notation "munfold" "in" hyp(H) :=
  unfold bind, ret, get, gets, modify, throw, assert, try_catch, emit,
    call_ext, conn_of, peer_of, put_conn, put_peer, timer_insert,
    timer_insert_at, timer_cancel, cancel_if_armed in H.

(** What a step leaves alone when it only touches the timer wheel, the
    wake-up timer and the collaborators. *)
Definition frame (s s' : State) : Prop :=
  conns s' = conns s /\ peers s' = peers s
  /\ activeRequests s' = activeRequests s /\ maxRequests s' = maxRequests s
  /\ out s' = out s /\ events s' = events s /\ haswork s' = haswork s
  /\ closeReason s' = closeReason s /\ clock s' = clock s.

Lemma frame_refl s : frame s s.
Proof. unfold frame; repeat split; reflexivity. Qed.

Lemma frame_trans s1 s2 s3 : frame s1 s2 -> frame s2 s3 -> frame s1 s3.
Proof.
  unfold frame. intros (A1 & A2 & A3 & A4 & A5 & A6 & A7 & A8 & A9).
  intros (B1 & B2 & B3 & B4 & B5 & B6 & B7 & B8 & B9).
  repeat split; congruence.
Qed.

Lemma update_wakeup_ok s :
  exists s', update_wakeup s = Ok tt s' /\ frame s s'.
Proof.
  unfold update_wakeup; munfold.
  destruct (wakeupTimer s) as [[it first]|] eqn:Hw;
    destruct (wakeup_time (ext s)) as [w|] eqn:Ht; simpl.
  - destruct (w =? first); simpl.
    + eexists; split; [reflexivity | apply frame_refl].
    + eexists; split; [reflexivity | unfold frame; simpl; repeat split; reflexivity].
  - eexists; split; [reflexivity | unfold frame; simpl; repeat split; reflexivity].
  - eexists; split; [reflexivity | unfold frame; simpl; repeat split; reflexivity].
  - eexists; split; [reflexivity | apply frame_refl].
Qed.

(** *** C5: deferring events *)

(** C5. [defer(e)] returns [false] exactly when the close reason is set;
    it then leaves the loop as it is.  When it returns [true] the event is
    at the back of the queue, [haswork] is set, the worker has been notified
    and nothing else has changed.  After [async_shutdown] with a non-zero
    reason every [defer] returns [false]. *)
Theorem defer_rejects_iff_shutdown (e : Event) (s : State) :
  (fst (defer e s) = false <-> closeReason s <> 0)
  /\ (fst (defer e s) = false -> snd (defer e s) = s)
  /\ (fst (defer e s) = true ->
      events (snd (defer e s)) = events s ++ [e]
      /\ haswork (snd (defer e s)) = true
      /\ out (snd (defer e s)) = out s ++ [CvNotifyOne]
      /\ closeReason (snd (defer e s)) = 0
      /\ peers (snd (defer e s)) = peers s
      /\ timer (snd (defer e s)) = timer s)
  /\ (forall reason, reason <> 0 ->
      fst (defer e (async_shutdown reason s)) = false
      /\ events (snd (defer e (async_shutdown reason s))) = events s).
Proof.
  assert (Hshut : forall reason, reason <> 0 ->
            fst (defer e (async_shutdown reason s)) = false
            /\ events (snd (defer e (async_shutdown reason s))) = events s).
  { intros reason Hr. unfold defer, async_shutdown. simpl.
    destruct (Z.eqb_spec reason 0); [contradiction | split; reflexivity]. }
  unfold defer.
  destruct (Z.eqb_spec (closeReason s) 0) as [H0|H0]; simpl.
  - split; [split; [discriminate | congruence] |].
    split; [discriminate |].
    split; [intros _; repeat split; assumption | exact Hshut].
  - split; [split; [intros _; assumption | reflexivity] |].
    split; [reflexivity |].
    split; [discriminate | exact Hshut].
Qed.

(** *** Closing and erasing a peer *)

Arguments update_wakeup : simpl never.
Arguments erase : simpl never.
Arguments close : simpl never.
Arguments close_offender : simpl never.
Arguments send : simpl never.
Arguments unref_active_requests : simpl never.

Lemma cancel_if_armed_ok it s :
  exists s', cancel_if_armed it s = Ok tt s' /\ frame s s' /\ ext s' = ext s.
Proof.
  destruct it; munfold; simpl; eexists; (split; [reflexivity|]);
    unfold frame; simpl; repeat split; reflexivity.
Qed.

Lemma erase_ok c err s con p :
  conns s !! c = Some con -> eventloop_erased con = false ->
  peers s !! c = Some p ->
  exists s',
    erase c err s = Ok tt s'
    /\ conns s' = <[c := mk_conn (eventloop_registered con) true (inbox con)]>
                    (conns s)
    /\ peers s' =
         <[c := set_job (mk_job (unref_data (data_v (job p))
                                   (activeRequests s)).1
                           (job_timer (job p))) p]> (peers s)
    /\ activeRequests s' =
         (unref_data (data_v (job p)) (activeRequests s)).2
    /\ maxRequests s' = maxRequests s /\ out s' = out s
    /\ events s' = events s /\ closeReason s' = closeReason s
    /\ clock s' = clock s.
Proof.
  intros Hc He Hp.
  unfold erase, unref_active_requests; munfold.
  rewrite Hc, He; simpl. rewrite Hp; simpl.
  destruct (unref_data (data_v (job p)) (activeRequests s)) as [d n] eqn:Hu.
  simpl. rewrite lookup_insert_eq. simpl.
  destruct (ping_timer (ping p)); destruct (job_timer (job p)); simpl;
    destruct (hd_erase c (ext s)) as [b1 x1]; simpl;
    destruct (bd_erase c x1) as [[] x2]; simpl;
    match goal with |- context [connections_erase c ?x] =>
      destruct (connections_erase c x) as [[] x3] end; simpl;
    try (eexists; split; [reflexivity | simpl; repeat split; reflexivity]);
    match goal with |- context [update_wakeup ?st] =>
      destruct (update_wakeup_ok st) as (s4 & -> & F) end;
    unfold frame in F; simpl in F;
    destruct F as (Fc & Fp & Fa & Fm & Fo & Fe & Fh & Fr & Fk);
    (exists s4; split; [reflexivity|]);
    rewrite Fc, Fp, Fa, Fm, Fo, Fe, Fr, Fk; repeat split; reflexivity.
Qed.

Lemma close_ok cr reason s con p :
  conns s !! cr = Some con -> eventloop_registered con = true ->
  eventloop_erased con = false -> peers s !! cr = Some p ->
  exists s',
    close cr reason s = Ok tt s'
    /\ conns s' = <[cr := mk_conn true true (inbox con)]> (conns s)
    /\ peers s' =
         <[cr := set_job (mk_job (unref_data (data_v (job p))
                                    (activeRequests s)).1
                            (job_timer (job p))) p]> (peers s)
    /\ activeRequests s' =
         (unref_data (data_v (job p)) (activeRequests s)).2
    /\ maxRequests s' = maxRequests s
    /\ out s' = out s ++ [AsyncClose cr reason]
    /\ events s' = events s /\ closeReason s' = closeReason s
    /\ clock s' = clock s.
Proof.
  intros Hc Hr He Hp.
  unfold close; munfold. rewrite Hc, Hr. simpl.
  match goal with |- context [erase cr reason ?st] =>
    destruct (erase_ok cr reason st con p Hc He Hp)
      as (s' & -> & H1 & H2 & H3 & H4 & H5 & H6 & H7 & H8) end.
  simpl in H1. rewrite Hr in H1.
  exists s'. repeat split; assumption.
Qed.

(** A closed peer is no longer found. *)
Lemma find_erased cr s con :
  conns s !! cr = Some con -> eventloop_erased con = true ->
  find cr s = None.
Proof.
  intros Hc He. unfold find. rewrite Hc, He.
  destruct (peers s !! cr); reflexivity.
Qed.

Lemma Priority_le_not_lt p q : Priority_le p q = negb (Priority_lt q p).
Proof.
  unfold Priority_le, Priority_lt.
  destruct (Z.ltb_spec (importance p) (importance q));
    destruct (Z.ltb_spec (importance q) (importance p));
    destruct (Z.eqb_spec (importance p) (importance q));
    destruct (Z.eqb_spec (importance q) (importance p));
    destruct (Z.leb_spec (height p) (height q));
    destruct (Z.ltb_spec (height q) (height p)); simpl; try reflexivity; lia.
Qed.

(** *** C4: the Leader message *)

(** C4. A Leader message reaches a registered peer.  If its priority does
    not strictly exceed the peer's acknowledged priority, the peer is closed
    with ELOWPRIORITY: the only effect is that close, nothing is posted to
    the chain server, and the peer is no longer found.  If it strictly
    exceeds it, the acknowledged priority becomes the new priority, the
    theirs-known priority is raised to it when lower, the snapshot is posted
    to the chain server ([async_set_signed_checkpoint]), and the peer stays
    open. *)
Theorem leader_requires_higher_priority cr msg s con p :
  conns s !! cr = Some con -> eventloop_registered con = true ->
  eventloop_erased con = false -> peers s !! cr = Some p ->
  (Priority_lt (acknowledgedSnapshotPriority p) (priority msg) = false ->
   exists s',
     handle_msg_Leader cr msg s = Ok tt s'
     /\ out s' = out s ++ [AsyncClose cr ELOWPRIORITY]
     /\ find cr s' = None)
  /\ (Priority_lt (acknowledgedSnapshotPriority p) (priority msg) = true ->
      exists s' p',
        handle_msg_Leader cr msg s = Ok tt s'
        /\ peers s' !! cr = Some p'
        /\ acknowledgedSnapshotPriority p' = priority msg
        /\ theirSnapshotPriority p' =
             (if Priority_lt (theirSnapshotPriority p) (priority msg)
              then priority msg else theirSnapshotPriority p)
        /\ out s' = out s ++ [AsyncSetSignedCheckpoint msg]
        /\ find cr s' = Some p').
Proof.
  intros Hc Hr He Hp. split; intros Hlt.
  - unfold handle_msg_Leader; munfold. rewrite Hp.
    rewrite Priority_le_not_lt, Hlt. simpl.
    destruct (close_ok cr ELOWPRIORITY s con p Hc Hr He Hp)
      as (s' & E & H1 & _ & _ & _ & H5 & _).
    exists s'. split; [exact E|]. split; [exact H5|].
    apply (find_erased cr s' (mk_conn true true (inbox con))).
    + rewrite H1. apply lookup_insert_eq.
    + reflexivity.
  - unfold handle_msg_Leader; munfold. rewrite Hp.
    rewrite Priority_le_not_lt, Hlt. simpl.
    eexists. eexists. split; [reflexivity|]. simpl.
    split; [apply lookup_insert_eq|].
    unfold find; simpl. rewrite lookup_insert_eq, Hc, He.
    destruct (Priority_lt (theirSnapshotPriority p) (priority msg));
      simpl; repeat split; reflexivity.
Qed.

(** *** Replies: popping the request *)

Arguments set_job _ _ /.
Arguments set_ping _ _ /.
Arguments set_throttled _ _ /.
Arguments set_lastNonce _ _ /.
Arguments set_theirSnapshotPriority _ _ /.
Arguments set_acknowledgedSnapshotPriority _ _ /.
Arguments pop_req : simpl never.

Lemma pop_req_ok {A} (sel : JobData -> option A) (base : A -> IsRequest)
    cr n s p r :
  peers s !! cr = Some p -> sel (data_v (job p)) = Some r ->
  nonce (base r) = n ->
  exists s1,
    pop_req sel base cr n s = Ok r s1
    /\ conns s1 = conns s
    /\ peers s1 = <[cr := set_job (mk_job Monostate None) p]> (peers s)
    /\ activeRequests s1 =
         (unref_data (data_v (job p)) (activeRequests s)).2
    /\ maxRequests s1 = maxRequests s /\ out s1 = out s
    /\ ext s1 = ext s
    /\ events s1 = events s /\ closeReason s1 = closeReason s
    /\ clock s1 = clock s.
Proof.
  intros Hp Hsel Hn.
  unfold pop_req, unref_active_requests, job_reset_notexpired; munfold.
  rewrite Hp, Hsel. rewrite Hn, Z.eqb_refl. rewrite Hp.
  destruct (unref_data (data_v (job p)) (activeRequests s)) as [d a] eqn:Hu.
  simpl. rewrite lookup_insert_eq. simpl.
  destruct (job_timer (job p)); simpl;
    (eexists; split; [reflexivity|]); simpl;
    rewrite insert_insert_eq; repeat split; reflexivity.
Qed.



(** *** Closing offenders *)

(** Every peer of the registry has a registered [Connection]. *)
Definition registry_ok (s : State) : Prop :=
  forall c p, peers s !! c = Some p ->
    exists con, conns s !! c = Some con /\ eventloop_registered con = true.

Definition offender_conId (o : ChainOffender) : Z :=
  match o with mk_offender _ _ c => c end.

Lemma close_offender_ok o s :
  registry_ok s ->
  exists s',
    close_offender o s = Ok tt s'
    /\ registry_ok s'
    /\ find (offender_conId o) s' = None
    /\ (forall c, find c s = None -> find c s' = None)
    /\ (forall e, In (HeaderDownloadOnResponse e.1.1 e.1.2 e.2) (out s') ->
                  In (HeaderDownloadOnResponse e.1.1 e.1.2 e.2) (out s)).
Proof.
  intros Hreg. destruct o as [e h c]. unfold close_offender; munfold. simpl.
  destruct (find c s) as [p|] eqn:Hf.
  - unfold find in Hf.
    destruct (peers s !! c) as [p'|] eqn:Hp; [|discriminate].
    destruct (conns s !! c) as [con|] eqn:Hc; [|discriminate].
    destruct (eventloop_erased con) eqn:He; [discriminate|].
    destruct (Hreg c p' Hp) as (con' & Hc' & Hr).
    rewrite Hc in Hc'. injection Hc' as <-.
    destruct (close_ok c e s con p' Hc Hr He Hp)
      as (s' & E & G1 & G2 & _ & _ & G5 & _).
    exists s'. split; [exact E|]. split; [|split; [|split]].
    + intros c0 p0. rewrite G2, G1.
      destruct (decide (c = c0)) as [->|Hne].
      * rewrite !lookup_insert_eq. intros _. eexists; split; reflexivity.
      * rewrite !lookup_insert_ne by exact Hne. apply Hreg.
    + apply (find_erased c s' (mk_conn true true (inbox con)));
        [rewrite G1; apply lookup_insert_eq | reflexivity].
    + intros c0. unfold find. rewrite G2, G1.
      destruct (decide (c = c0)) as [->|Hne].
      * rewrite !lookup_insert_eq. reflexivity.
      * rewrite !lookup_insert_ne by exact Hne. intros H; exact H.
    + intros x. rewrite G5, in_app_iff. simpl.
      intros [H|[H|[]]]; [exact H | discriminate].
  - exists s. repeat split; try assumption; intros; assumption.
Qed.

Lemma close_offenders_ok l s :
  registry_ok s ->
  exists s',
    for_each l close_offender s = Ok tt s'
    /\ registry_ok s'
    /\ (forall o, In o l -> find (offender_conId o) s' = None)
    /\ (forall c, find c s = None -> find c s' = None)
    /\ (forall e, In (HeaderDownloadOnResponse e.1.1 e.1.2 e.2) (out s') ->
                  In (HeaderDownloadOnResponse e.1.1 e.1.2 e.2) (out s)).
Proof.
  revert s. induction l as [|o l IH]; intros s Hreg.
  - exists s. simpl. unfold ret.
    repeat split; try assumption; intros; try assumption; contradiction.
  - simpl. unfold bind.
    destruct (close_offender_ok o s Hreg) as (s1 & -> & R1 & F1 & K1 & O1).
    destruct (IH s1 R1) as (s2 & E2 & R2 & F2 & K2 & O2).
    exists s2. split; [exact E2|]. split; [exact R2|]. repeat split.
    + intros o' [<-|Hin]; [apply K2, F1 | apply F2, Hin].
    + intros c Hc. apply K2, K1, Hc.
    + intros e He. apply O1, O2, He.
Qed.

(** *** C7: header-batch replies *)

(** C7. A batch reply answers the peer's batch request [req].  If the
    batch is shorter than [minReturn] or longer than [max_return], the peer
    is closed with EBATCHSIZE right after the request is popped: that close
    is the only effect, nothing is handed to the header downloader, and the
    peer is no longer found.  Otherwise the batch is handed to
    [headerDownload.on_response], every offender it reports is closed (none
    of them is found afterwards), and the handler goes on to
    [initialize_block_download] and [do_requests]. *)
Theorem batchrep_size_gate cr n batch s con p req :
  registry_ok s ->
  conns s !! cr = Some con -> eventloop_registered con = true ->
  eventloop_erased con = false -> peers s !! cr = Some p ->
  data_v (job p) = JobBatch req -> nonce (batch_base req) = n ->
  let size := Z.of_nat (length batch) in
  exists s1,
    pop_req as_batch batch_base cr n s = Ok req s1
    /\ out s1 = out s
    /\ (size < minReturn req \/ max_return req < size ->
        exists s',
          handle_msg_Batchrep cr n batch s = close cr EBATCHSIZE s1
          /\ close cr EBATCHSIZE s1 = Ok tt s'
          /\ out s' = out s ++ [AsyncClose cr EBATCHSIZE]
          /\ find cr s' = None)
    /\ (minReturn req <= size <= max_return req ->
        let reported := (hd_on_response cr req batch (ext s1)).1 in
        exists s2,
          for_each reported close_offender
            (set_ext (hd_on_response cr req batch (ext s1)).2
               (emit_effect (HeaderDownloadOnResponse cr req batch) s1))
          = Ok tt s2
          /\ (forall o, In o reported -> find (offender_conId o) s2 = None)
          /\ handle_msg_Batchrep cr n batch s =
               (run initialize_block_download then do_requests) s2).
Proof.
  intros Hreg Hc Hr He Hp Hd Hn size.
  assert (Hsel : as_batch (data_v (job p)) = Some req) by (rewrite Hd; easy).
  destruct (pop_req_ok as_batch batch_base cr n s p req Hp Hsel Hn)
    as (s1 & E1 & H1 & H2 & H3 & H4 & H5 & H6 & H7 & H8 & H9).
  exists s1. split; [exact E1|]. split; [exact H5|]. split.
  - intros Hbad.
    assert (Hb : (size <? minReturn req) || (max_return req <? size) = true).
    { apply orb_true_iff. destruct Hbad; [left | right]; lia. }
    assert (Hc1 : conns s1 !! cr = Some con) by (rewrite H1; exact Hc).
    assert (Hp1 : peers s1 !! cr = Some (set_job (mk_job Monostate None) p))
      by (rewrite H2; apply lookup_insert_eq).
    destruct (close_ok cr EBATCHSIZE s1 con _ Hc1 Hr He Hp1)
      as (s' & E & G1 & _ & _ & _ & G5 & _).
    exists s'. split.
    { unfold handle_msg_Batchrep. unfold bind at 1. rewrite E1.
      fold size. rewrite Hb. unfold close_offender; munfold.
      unfold find. rewrite Hp1, Hc1, He. reflexivity. }
    split; [exact E|]. split; [rewrite G5, H5; reflexivity|].
    apply (find_erased cr s' (mk_conn true true (inbox con))).
    + rewrite G1. apply lookup_insert_eq.
    + reflexivity.
  - intros Hgood reported.
    assert (Hb : (size <? minReturn req) || (max_return req <? size) = false).
    { apply orb_false_iff. split; lia. }
    assert (Hreg1 : registry_ok
              (set_ext (hd_on_response cr req batch (ext s1)).2
                 (emit_effect (HeaderDownloadOnResponse cr req batch) s1))).
    { intros c0 p0. simpl. rewrite H2, H1.
      destruct (decide (cr = c0)) as [<-|Hne].
      - intros _. exists con. split; assumption.
      - rewrite lookup_insert_ne by exact Hne. apply Hreg. }
    destruct (close_offenders_ok reported _ Hreg1) as (s2 & E2 & _ & F2 & _).
    exists s2. split; [exact E2|]. split; [exact F2|].
    unfold handle_msg_Batchrep. unfold bind at 1. rewrite E1.
    fold size. rewrite Hb. munfold. simpl.
    subst reported.
    destruct (hd_on_response cr req batch (ext s1)) as [offenders x].
    simpl in E2. rewrite E2. reflexivity.
Qed.

(** *** C2: the message dispatcher *)

Arguments dispatch_message : simpl never.
Arguments process_messages : simpl never.
Arguments handle_msg : simpl never.

(** [dispatch_message] throws [e] on the first of [msg :: rest] without
    touching the state, and [process_connection]'s loop turns that into a
    close of the peer with [e], after which it runs [do_requests] and
    returns: the remaining messages are not dispatched, and the outcome of
    the loop is the outcome of [do_requests]. *)
Definition rejected_with (e : Error) (cr : Z) (msg : Rcvbuffer)
    (rest : list Rcvbuffer) (s : State) : Prop :=
  dispatch_message cr msg s = Throw e s
  /\ exists s',
       close cr e s = Ok tt s'
       /\ out s' = out s ++ [AsyncClose cr e]
       /\ find cr s' = None
       /\ process_messages cr (msg :: rest) s = do_requests s'.

Lemma throw_is_closed e cr msg rest s con p :
  conns s !! cr = Some con -> eventloop_registered con = true ->
  eventloop_erased con = false -> peers s !! cr = Some p ->
  dispatch_message cr msg s = Throw e s ->
  rejected_with e cr msg rest s.
Proof.
  intros Hc Hr He Hp Hd. split; [exact Hd|].
  destruct (close_ok cr e s con p Hc Hr He Hp)
    as (s' & E & G1 & _ & _ & _ & G5 & _).
  exists s'. split; [exact E|]. split; [exact G5|]. split.
  - apply (find_erased cr s' (mk_conn true true (inbox con)));
      [rewrite G1; apply lookup_insert_eq | reflexivity].
  - unfold process_messages. unfold bind at 1. unfold try_catch.
    unfold bind at 1. rewrite Hd. unfold bind at 1. rewrite E.
    unfold bind, ret.
    destruct (do_requests s') as [[] s''|e' s''|]; reflexivity.
Qed.

(** C2. For a message buffer that reaches a registered peer: a failed
    checksum raises ECHECKSUM; with a good checksum, a parsed message other
    than Init raises ENOINIT while the peer awaits its handshake, and a
    parsed Init raises EINVINIT afterwards.  Each of these errors leaves the
    state as it was, is caught by the loop of [process_connection], and
    becomes a close of that peer with that code ([close] posts [async_close]
    and erases the peer); the loop then runs [do_requests] and returns
    normally when that does. *)
Theorem dispatch_errors_close_peer cr msg rest s con p :
  conns s !! cr = Some con -> eventloop_registered con = true ->
  eventloop_erased con = false -> peers s !! cr = Some p ->
  (verify msg = false -> rejected_with ECHECKSUM cr msg rest s)
  /\ (forall m, verify msg = true -> parse msg = inr m ->
        (awaiting_init (job p) = true -> is_InitMsg m = false ->
         rejected_with ENOINIT cr msg rest s)
        /\ (awaiting_init (job p) = false -> is_InitMsg m = true ->
            rejected_with EINVINIT cr msg rest s)).
Proof.
  intros Hc Hr He Hp. split.
  - intros Hv. apply (throw_is_closed _ _ _ _ _ con p); try assumption.
    unfold dispatch_message. rewrite Hv. reflexivity.
  - intros m Hv Hm. split; intros Ha Hi;
      apply (throw_is_closed _ _ _ _ _ con p); try assumption;
      unfold dispatch_message; rewrite Hv, Hm; munfold; simpl;
      rewrite Hp, Ha, Hi; reflexivity.
Qed.

(** [process_connection] on a registered, open connection hands the
    buffered messages to the loop above. *)
Lemma process_connection_registered c s con :
  conns s !! c = Some con -> eventloop_registered con = true ->
  eventloop_erased con = false ->
  process_connection c s =
    process_messages c (inbox con)
      (set_conns (<[c := mk_conn true false []]> (conns s)) s).
Proof.
  intros Hc Hr He. unfold process_connection, extractMessages; munfold.
  rewrite Hc, He, Hr. simpl. rewrite Hc, Hr, He. reflexivity.
Qed.

(** *** The timer wheel *)

Lemma insert_entry_sorted e l :
  Timer.sorted l -> Timer.sorted (Timer.insert_entry e l).
Proof.
  induction l as [|x l IH]; simpl.
  - intros _. split; [constructor | exact I].
  - intros [Hx Hl].
    destruct (Z.ltb_spec (Timer.deadline e) (Timer.deadline x)) as [Hlt|Hge].
    + simpl. split; [|split; assumption].
      constructor; [lia|].
      eapply Forall_impl; [exact Hx|]. simpl. intros; lia.
    + simpl. split; [|apply IH, Hl].
      clear IH Hl. induction l as [|y l IH]; simpl.
      * constructor; [exact Hge | constructor].
      * inversion Hx as [|? ? Hy Hl']; subst.
        destruct (Timer.deadline e <? Timer.deadline y);
          constructor; try assumption; try (constructor; assumption).
        apply IH, Hl'.
Qed.

Lemma insert_at_sorted tp ev tm :
  Timer.sorted (Timer.ordered tm) ->
  Timer.sorted (Timer.ordered (Timer.insert_at tp ev tm).2).
Proof. intros H. simpl. apply insert_entry_sorted, H. Qed.

Lemma cancel_sorted it tm :
  Timer.sorted (Timer.ordered tm) ->
  Timer.sorted (Timer.ordered (Timer.cancel it tm)).
Proof.
  unfold Timer.cancel; simpl. generalize (Timer.ordered tm) as l.
  induction l as [|x l IH]; simpl; [intros; exact I|].
  intros [Hx Hl]. destruct (negb (Nat.eqb (Timer.key x) it)); simpl.
  - split; [|apply IH, Hl].
    apply List.Forall_forall. intros y Hy. apply filter_In in Hy as [Hy _].
    rewrite List.Forall_forall in Hx. apply Hx, Hy.
  - apply IH, Hl.
Qed.


(** *** C6: one work cycle *)





(** *** C1: the bound on active requests *)

(** A job counts as active while it holds a request whose
    [isActiveRequest] flag is set. *)
Definition job_active (d : JobData) : bool :=
  match d with
  | JobProbe r => isActiveRequest (probe_base r)
  | JobBatch r => isActiveRequest (batch_base r)
  | JobBlock r => isActiveRequest (block_base r)
  | Monostate | AwaitInit => false
  end.

Definition peer_active (p : PeerState) : bool := job_active (data_v (job p)).






Lemma unref_data_spec d n :
  job_active (unref_data d n).1 = false
  /\ (unref_data d n).2 = if job_active d then wrap64 (n - 1) else n.
Proof.
  destruct d as [| |r|r|r]; simpl; try (split; reflexivity);
    unfold unref_base;
    match goal with |- context [isActiveRequest ?b] =>
      destruct (isActiveRequest b) eqn:Hb end;
    simpl; rewrite ?Hb; split; reflexivity.
Qed.








(** Below the bound, a request to a registered peer is issued. *)
Lemma send_request_ok c req s p con :
  peers s !! c = Some p -> conns s !! c = Some con ->
  RequestSender_finished s = false ->
  exists s', send_request c req s = Ok tt s'.
Proof.
  intros Hp Hc Hf. unfold RequestSender_finished in Hf.
  apply Z.leb_gt in Hf.
  unfold send_request, assign, send; munfold. simpl. rewrite Hp. simpl.
  destruct (isActiveRequest (request_base req)); simpl.
  - destruct (Z.ltb_spec (activeRequests s) (maxRequests s)); [|lia].
    simpl. rewrite Hc.
    destruct (eventloop_erased con); simpl; eexists; reflexivity.
  - rewrite Hc.
    destruct (eventloop_erased con); simpl; eexists; reflexivity.
Qed.



(** *** C3: forwarding block replies through the throttled queue *)

Arguments handle_event_OnForwardBlockrep : simpl never.
Arguments handle_timeout : simpl never.
Arguments send_throttled : simpl never.




(** The timer a buffer arms when it arrives at a queue that has none. *)
Definition armed_timer (s : State) (th : Throttled) : option Timer.iterator :=
  match th_timer th with
  | Some t => Some t
  | None => Some (Timer.fresh (timer s))
  end.

Lemma forward_ok c blocks s con p :
  conns s !! c = Some con -> eventloop_erased con = false ->
  peers s !! c = Some p ->
  let th := throttled p in
  let b := SndBlockrep (lastNonce p) blocks in
  exists s',
    handle_event_OnForwardBlockrep c blocks s = Ok tt s'
    /\ send_throttled c b (seconds 1) s = Ok tt s'
    /\ out s' = out s /\ conns s' = conns s /\ clock s' = clock s
    /\ peers s' =
         <[c := set_throttled
                  (mk_throttled (th_queue th ++ [b]) (armed_timer s th)
                     (Z.max (clock s) (th_next th) + seconds 1)) p]>
           (peers s)
    /\ timer s' =
         match th_timer th with
         | Some _ => timer s
         | None =>
             (Timer.insert_at (Z.max (clock s) (th_next th))
                (Timer.ThrottledSend c) (timer s)).2
         end.
Proof.
  intros Hc He Hp th b.
  unfold handle_event_OnForwardBlockrep. unfold bind at 1, get.
  unfold find. rewrite Hp, Hc, He. fold b.
  unfold send_throttled, throttled_insert, throttled_add_throttle,
    throttled_update_timer; munfold.
  rewrite Hp. simpl. rewrite lookup_insert_eq. simpl. fold th.
  unfold armed_timer.
  destruct (th_timer th) as [t|] eqn:Ht.
  - simpl. rewrite lookup_insert_eq. simpl.
    eexists. split; [reflexivity|]. split; [reflexivity|]. simpl.
    rewrite insert_insert_eq. repeat split; reflexivity.
  - destruct (th_queue th ++ [b]) as [|b0 q0] eqn:Hq.
    { destruct (th_queue th); discriminate. }
    simpl. rewrite lookup_insert_eq. simpl.
    eexists. split; [reflexivity|]. split; [reflexivity|]. simpl.
    rewrite !insert_insert_eq. repeat split; reflexivity.
Qed.








(** ** Event loop: further behaviour of the code *)

(** *** Erasing, closing and releasing a connection *)

(** X8. [Eventloop::erase] happens once.  On a connection whose
    [eventloop_erased] flag is set it returns at once.  On a live connection
    it sets the flag and posts nothing to the transport; from then on every
    further [erase] and every [Conref::send] for that connection leaves the
    loop as it is. *)
Theorem erase_is_final c err s con :
  conns s !! c = Some con ->
  (eventloop_erased con = true -> erase c err s = Ok tt s)
  /\ (forall p, eventloop_erased con = false -> peers s !! c = Some p ->
      exists s',
        erase c err s = Ok tt s'
        /\ conns s' !! c
           = Some (mk_conn (eventloop_registered con) true (inbox con))
        /\ out s' = out s
        /\ (forall err', erase c err' s' = Ok tt s')
        /\ (forall b, send c b s' = Ok tt s')).
Proof.
  intros Hc. split.
  - intros He. unfold erase; munfold. rewrite Hc, He. reflexivity.
  - intros p He Hp.
    destruct (erase_ok c err s con p Hc He Hp)
      as (s' & E & Hc' & _ & _ & _ & Ho & _).
    exists s'. split; [exact E|].
    assert (Hl : conns s' !! c
                 = Some (mk_conn (eventloop_registered con) true (inbox con)))
      by (rewrite Hc'; apply lookup_insert_eq).
    split; [exact Hl|]. split; [exact Ho|]. split.
    + intros err'. unfold erase; munfold. rewrite Hl. reflexivity.
    + intros b. unfold send; munfold. rewrite Hl. reflexivity.
Qed.

(** X9. [Eventloop::close(Conref, Error)] does nothing for a connection that was
    never registered.  For a registered, live peer it posts exactly one
    [async_close] with the reason and erases the peer.  It does not look at
    [eventloop_erased]: closing a registered connection that is already
    erased posts one more [async_close] and changes nothing else. *)
Theorem close_posts_async_close cr reason s con :
  conns s !! cr = Some con ->
  (eventloop_registered con = false -> close cr reason s = Ok tt s)
  /\ (eventloop_registered con = true -> eventloop_erased con = true ->
      close cr reason s = Ok tt (emit_effect (AsyncClose cr reason) s))
  /\ (forall p, eventloop_registered con = true ->
      eventloop_erased con = false -> peers s !! cr = Some p ->
      exists s',
        close cr reason s = Ok tt s'
        /\ out s' = out s ++ [AsyncClose cr reason]
        /\ conns s' !! cr = Some (mk_conn true true (inbox con))
        /\ (forall b, send cr b s' = Ok tt s')).
Proof.
  intros Hc. split; [|split].
  - intros Hr. unfold close; munfold. rewrite Hc, Hr. reflexivity.
  - intros Hr He. unfold close; munfold. rewrite Hc, Hr. simpl.
    unfold erase; munfold. simpl. rewrite Hc, He. reflexivity.
  - intros p Hr He Hp.
    destruct (close_ok cr reason s con p Hc Hr He Hp)
      as (s' & E & Hc' & _ & _ & _ & Ho & _).
    exists s'. split; [exact E|]. split; [exact Ho|].
    assert (Hl : conns s' !! cr = Some (mk_conn true true (inbox con)))
      by (rewrite Hc'; apply lookup_insert_eq).
    split; [exact Hl|].
    intros b. unfold send; munfold. rewrite Hl. reflexivity.
Qed.

(** X10. [Eventloop::handle_event(OnRelease&&)]: the transport reports that it
    dropped a connection.  The event is ignored unless the connection is
    registered and not yet erased; then the peer is erased (its job is
    counted out of [activeRequests], it is no longer found) and, unlike in
    [close], nothing is posted back to the transport. *)
Theorem release_erases_without_close c err s con :
  conns s !! c = Some con ->
  (eventloop_erased con = true \/ eventloop_registered con = false ->
   handle_event_OnRelease c err s = Ok tt s)
  /\ (forall p, eventloop_erased con = false ->
      eventloop_registered con = true -> peers s !! c = Some p ->
      exists s',
        handle_event_OnRelease c err s = Ok tt s'
        /\ out s' = out s
        /\ find c s' = None
        /\ activeRequests s'
           = (if peer_active p then wrap64 (activeRequests s - 1)
              else activeRequests s)).
Proof.
  intros Hc. split.
  - intros H. unfold handle_event_OnRelease; munfold. rewrite Hc.
    destruct H as [-> | ->]; [reflexivity|].
    rewrite andb_false_r. reflexivity.
  - intros p He Hr Hp.
    destruct (erase_ok c err s con p Hc He Hp)
      as (s' & E & Hc' & _ & Ha & _ & Ho & _).
    exists s'. unfold handle_event_OnRelease; munfold.
    rewrite Hc, He, Hr. simpl. split; [exact E|]. split; [exact Ho|].
    split.
    + apply (find_erased c s' (mk_conn (eventloop_registered con) true
                                 (inbox con))); [|reflexivity].
      rewrite Hc'. apply lookup_insert_eq.
    + rewrite Ha. unfold peer_active.
      apply (proj2 (unref_data_spec (data_v (job p)) (activeRequests s))).
Qed.

(** *** The wake-up timer and scheduled connects *)

Lemma update_wakeup_spec s :
  exists s',
    update_wakeup s = Ok tt s'
    /\ update_wakeup s' = Ok tt s'
    /\ ext s' = ext s
    /\ match wakeup_time (ext s) with
       | None => wakeupTimer s' = None
       | Some w => exists it, wakeupTimer s' = Some (it, w)
       end
    /\ frame s s'.
Proof.
  unfold update_wakeup; munfold.
  destruct (wakeupTimer s) as [[it first]|] eqn:Hw;
    destruct (wakeup_time (ext s)) as [w|] eqn:Ht; simpl.
  - destruct (Z.eqb_spec w first) as [->|Hne]; simpl.
    + exists s. rewrite Hw, Ht, Z.eqb_refl.
      split; [reflexivity|]. split; [reflexivity|]. split; [reflexivity|].
      split; [exists it; reflexivity | apply frame_refl].
    + eexists. split; [reflexivity|]. simpl. rewrite Ht, Z.eqb_refl.
      split; [reflexivity|]. split; [reflexivity|].
      split; [eexists; reflexivity|].
      unfold frame; simpl; repeat split; reflexivity.
  - eexists. split; [reflexivity|]. simpl. rewrite Ht.
    split; [reflexivity|]. split; [reflexivity|]. split; [reflexivity|].
    unfold frame; simpl; repeat split; reflexivity.
  - eexists. split; [reflexivity|]. simpl. rewrite Ht, Z.eqb_refl.
    split; [reflexivity|]. split; [reflexivity|].
    split; [eexists; reflexivity|].
    unfold frame; simpl; repeat split; reflexivity.
  - exists s. rewrite Hw, Ht.
    split; [reflexivity|]. split; [reflexivity|]. split; [reflexivity|].
    split; [reflexivity | apply frame_refl].
Qed.

(** X11. [Eventloop::update_wakeup] brings the wake-up timer in line with the
    address manager's wake-up time: afterwards the timer is armed exactly
    when there is a wake-up time, for that time, and a second call changes
    nothing.  Peers, connections, counters and posted effects are left
    alone. *)
Theorem update_wakeup_idempotent s :
  exists s',
    update_wakeup s = Ok tt s'
    /\ update_wakeup s' = Ok tt s'
    /\ ext s' = ext s
    /\ match wakeup_time (ext s) with
       | None => wakeupTimer s' = None
       | Some w => exists it, wakeupTimer s' = Some (it, w)
       end
    /\ frame s s'.
Proof. exact (update_wakeup_spec s). Qed.

(** The loop state after posting the effects [l]. *)
Definition emit_all (l : list Effect) (s : State) : State :=
  mk_state (ext s) (conns s) (peers s) (timer s) (wakeupTimer s)
    (activeRequests s) (maxRequests s) (clock s) (haswork s) (closeReason s)
    (events s) (out s ++ l).

Lemma for_each_emit {A} (f : A -> Effect) (l : list A) s :
  for_each l (fun a => emit (f a)) s = Ok tt (emit_all (List.map f l) s).
Proof.
  revert s. induction l as [|a l IH]; intros s.
  - simpl. unfold ret, emit_all. rewrite app_nil_r. destruct s; reflexivity.
  - cbn [for_each List.map]. unfold bind at 1. unfold emit at 1, modify.
    rewrite IH. unfold emit_all; simpl. rewrite <- app_assoc. reflexivity.
Qed.

Lemma connect_scheduled_ok s :
  connect_scheduled s
  = Ok tt (emit_all (List.map AsyncConnect (pop_connect (ext s)).1)
             (set_ext (pop_connect (ext s)).2 s)).
Proof.
  unfold connect_scheduled, bind at 1, call_ext.
  destruct (pop_connect (ext s)) as [addrs x]. apply for_each_emit.
Qed.

(** X12. [Eventloop::handle_timeout(Timer::Connect&&)]: the wake-up timer has
    fired.  Every address the address manager hands out is connected to, in
    the order handed out, and the wake-up timer is armed anew exactly when
    the address manager has a next wake-up time. *)
Theorem connect_timeout_connects_scheduled s :
  let popped := pop_connect (ext s) in
  exists s',
    handle_timeout Timer.Connect s = Ok tt s'
    /\ out s' = out s ++ List.map AsyncConnect popped.1
    /\ ext s' = popped.2
    /\ wakeupTimer s'
       = match wakeup_time popped.2 with
         | None => None
         | Some w => Some (Timer.fresh (timer s), w)
         end
    /\ conns s' = conns s /\ peers s' = peers s
    /\ activeRequests s' = activeRequests s.
Proof.
  intros popped. unfold handle_timeout, handle_timeout_Connect.
  unfold bind at 1. unfold modify at 1.
  unfold bind at 1. rewrite connect_scheduled_ok. simpl ext. fold popped.
  unfold update_wakeup; munfold. simpl.
  destruct (wakeup_time popped.2) as [w|]; simpl;
    eexists; (split; [reflexivity|]); simpl; repeat split; reflexivity.
Qed.

(** *** Fresh connections *)

(** X13. [Eventloop::process_connection] on a connection the address manager
    refuses: the connection is marked registered and erased, the scheduled
    connects are made, and one [async_close] with the admission error is
    posted after them.  No peer record is made, nothing is sent to the
    connection, its buffered messages are not looked at, and later calls for
    it return at once. *)
Theorem process_connection_refused c s con e x :
  conns s !! c = Some con ->
  eventloop_erased con = false -> eventloop_registered con = false ->
  connections_admit c (ext s) = (Some e, x) ->
  exists s',
    process_connection c s = Ok tt s'
    /\ conns s' = <[c := mk_conn true true (inbox con)]> (conns s)
    /\ peers s' = peers s
    /\ out s'
       = out s ++ List.map AsyncConnect (pop_connect x).1 ++ [AsyncClose c e]
    /\ process_connection c s' = Ok tt s'.
Proof.
  intros Hc He Hr Ha.
  unfold process_connection. unfold bind at 1. unfold conn_of at 1.
  rewrite Hc, He, Hr. cbn [negb].
  unfold bind at 1. unfold bind at 1. unfold bind at 1.
  unfold put_conn at 1, modify.
  unfold bind at 1. unfold connections_insert, bind at 1, call_ext.
  cbn [ext set_conns]. rewrite Ha. unfold ret at 1.
  unfold bind at 1.
  match goal with |- context [update_wakeup ?st] =>
    destruct (update_wakeup_spec st) as (s1 & -> & _ & Hx & _ & F) end.
  unfold frame in F. cbn in F, Hx.
  destruct F as (Fc & Fp & Fa & Fm & Fo & Fe & Fh & Fr & Fk).
  unfold bind at 1. rewrite connect_scheduled_ok. rewrite Hx.
  munfold. cbn. rewrite Fc, lookup_insert_eq. cbn.
  eexists. split; [reflexivity|]. cbn.
  rewrite ?Fc, ?Fp, ?Fo, ?insert_insert_eq, <- ?app_assoc.
  repeat split; try reflexivity.
  rewrite lookup_insert_eq. reflexivity.
Qed.

(** *** Timeouts *)

(** The connection a timer payload names ([Timer::WithConnecitonId]). *)
Definition timeout_conId (t : Timer.Event) : option Z :=
  match t with
  | Timer.Connect => None
  | Timer.SendPing c | Timer.CloseNoPong c | Timer.CloseNoReply c
  | Timer.Expire c | Timer.ThrottledSend c => Some c
  end.

Lemma find_live c s con p :
  conns s !! c = Some con -> eventloop_erased con = false ->
  peers s !! c = Some p -> find c s = Some p.
Proof. intros Hc He Hp. unfold find. rewrite Hp, Hc, He. reflexivity. Qed.

(** X14. [Eventloop::handle_timeout(T&&)]: a timer that fires for a connection
    which is no longer found is dropped; the loop is left as it is. *)
Theorem timeout_for_gone_peer_is_ignored t c s :
  timeout_conId t = Some c -> find c s = None ->
  handle_timeout t s = Ok tt s.
Proof.
  intros Ht Hf. unfold handle_timeout, with_connection.
  destruct t; simpl in Ht; try discriminate; injection Ht as ->;
    unfold bind, get; rewrite Hf; reflexivity.
Qed.

Lemma close_timeout_ok t c s con p :
  conns s !! c = Some con -> eventloop_registered con = true ->
  eventloop_erased con = false -> peers s !! c = Some p ->
  t = Timer.CloseNoReply c \/ t = Timer.CloseNoPong c ->
  exists s',
    handle_timeout t s = Ok tt s'
    /\ out s' = out s ++ [AsyncClose c ETIMEOUT]
    /\ find c s' = None
    /\ activeRequests s'
       = (if peer_active p then wrap64 (activeRequests s - 1)
          else activeRequests s).
Proof.
  intros Hc Hr He Hp Ht.
  pose proof (find_live c s con p Hc He Hp) as Hf.
  assert (Hgen : forall p', data_v (job p') = data_v (job p) ->
            exists s',
              close c ETIMEOUT (set_peers (<[c := p']> (peers s)) s)
              = Ok tt s'
              /\ out s' = out s ++ [AsyncClose c ETIMEOUT]
              /\ find c s' = None
              /\ activeRequests s'
                 = (if peer_active p then wrap64 (activeRequests s - 1)
                    else activeRequests s)).
  { intros p' Hd.
    destruct (close_ok c ETIMEOUT (set_peers (<[c := p']> (peers s)) s)
                con p' Hc Hr He (lookup_insert_eq _ _ _))
      as (s' & E & Hc' & _ & Ha & _ & Ho & _).
    exists s'. split; [exact E|]. split; [exact Ho|]. split.
    - apply (find_erased c s' (mk_conn true true (inbox con)));
        [|reflexivity].
      rewrite Hc'. apply lookup_insert_eq.
    - rewrite Ha. simpl activeRequests. rewrite Hd. unfold peer_active.
      apply (proj2 (unref_data_spec (data_v (job p)) (activeRequests s))). }
  unfold handle_timeout, with_connection.
  destruct Ht as [-> | ->]; unfold bind at 1, get; rewrite Hf.
  - unfold handle_connection_timeout_CloseNoReply, job_reset_expired.
    munfold. rewrite Hp. apply Hgen. reflexivity.
  - unfold handle_connection_timeout_CloseNoPong, ping_reset_expired.
    munfold. rewrite Hp. apply Hgen. reflexivity.
Qed.

(** X15. [handle_connection_timeout] for [CloseNoReply] and [CloseNoPong]: a
    peer that let its reply or pong deadline pass is closed with ETIMEOUT.
    One [async_close] is posted, the peer is no longer found, and its job is
    counted out of [activeRequests]. *)
Theorem silent_peer_is_closed_with_ETIMEOUT t c s con p :
  conns s !! c = Some con -> eventloop_registered con = true ->
  eventloop_erased con = false -> peers s !! c = Some p ->
  t = Timer.CloseNoReply c \/ t = Timer.CloseNoPong c ->
  exists s',
    handle_timeout t s = Ok tt s'
    /\ out s' = out s ++ [AsyncClose c ETIMEOUT]
    /\ find c s' = None
    /\ activeRequests s'
       = (if peer_active p then wrap64 (activeRequests s - 1)
          else activeRequests s).
Proof. exact (close_timeout_ok t c s con p). Qed.

(** X16. The ping cycle, from [handle_connection_timeout(SendPing)] on: the
    loop sends a ping and arms a [CloseNoPong] timer one minute ahead (ten
    with [localDebug]), which becomes the peer's ping timer; if that timer
    is what happens to the peer next, the peer is closed with ETIMEOUT. *)
Theorem unanswered_ping_closes_peer c s con p :
  conns s !! c = Some con -> eventloop_registered con = true ->
  eventloop_erased con = false -> peers s !! c = Some p ->
  exists s1,
    handle_timeout (Timer.SendPing c) s = Ok tt s1
    /\ out s1 = out s ++ [AsyncSend c (SndOther 0)]
    /\ timer s1
       = (Timer.insert_at
            (clock s + (if localDebug then minutes 10 else minutes 1))
            (Timer.CloseNoPong c) (timer s)).2
    /\ peers s1 !! c
       = Some (set_ping (mk_ping (Some (Timer.fresh (timer s)))) p)
    /\ exists s2,
         handle_timeout (Timer.CloseNoPong c) s1 = Ok tt s2
         /\ out s2 = out s1 ++ [AsyncClose c ETIMEOUT]
         /\ find c s2 = None.
Proof.
  intros Hc Hr He Hp.
  pose proof (find_live c s con p Hc He Hp) as Hf.
  unfold handle_timeout at 1, with_connection.
  unfold bind at 1, get. rewrite Hf.
  unfold handle_connection_timeout_SendPing, ping_reset_expired,
    send_ping_await_pong, send.
  munfold. rewrite Hp. simpl. rewrite lookup_insert_eq. simpl.
  rewrite Hc, He. simpl.
  eexists. split; [reflexivity|]. simpl.
  split; [reflexivity|]. split; [reflexivity|].
  rewrite insert_insert_eq, lookup_insert_eq.
  split; [reflexivity|].
  match goal with |- context [handle_timeout _ ?st] =>
    destruct (close_timeout_ok (Timer.CloseNoPong c) c st
                con (set_ping (mk_ping (Some (Timer.fresh (timer s)))) p))
      as (s2 & E & Ho & Hf2 & _) end;
    try assumption; try (simpl; apply lookup_insert_eq).
  - right. reflexivity.
  - exists s2. split; [exact E|]. split; [exact Ho | exact Hf2].
Qed.

Lemma unref_keeps_request d n r :
  as_request d = Some r ->
  exists r', as_request (unref_data d n).1 = Some r'
             /\ nonce (request_base r') = nonce (request_base r).
Proof.
  destruct d as [| |q|q|q]; simpl; intros H; try discriminate;
    injection H as <-; unfold unref_base;
    match goal with |- context [isActiveRequest ?b] =>
      destruct (isActiveRequest b) end; simpl;
    eexists; split; reflexivity.
Qed.

(** X17. [handle_connection_timeout(Expire)]: the peer's request has expired.
    If the peer's job holds no request the handler runs into
    [assert(false)].  Otherwise a [CloseNoReply] timer is armed two minutes
    ahead (ten with [localDebug]) and becomes the job timer, the request
    stays the peer's job, and the handler goes on to [on_request_expired]
    with it. *)
Theorem expired_request_gets_a_deadline c s con p :
  conns s !! c = Some con -> eventloop_erased con = false ->
  peers s !! c = Some p ->
  (as_request (data_v (job p)) = None ->
   handle_timeout (Timer.Expire c) s = Abort)
  /\ (forall r, as_request (data_v (job p)) = Some r ->
      exists s1 r' p1,
        expire_job c s = Ok r' s1
        /\ handle_timeout (Timer.Expire c) s = on_request_expired c r' s1
        /\ timer s1
           = (Timer.insert_at
                (clock s + (if localDebug then minutes 10 else minutes 2))
                (Timer.CloseNoReply c) (timer s)).2
        /\ peers s1 !! c = Some p1
        /\ job_timer (job p1) = Some (Timer.fresh (timer s))
        /\ as_request (data_v (job p1)) = Some r'
        /\ nonce (request_base r') = nonce (request_base r)
        /\ out s1 = out s).
Proof.
  intros Hc He Hp.
  pose proof (find_live c s con p Hc He Hp) as Hf.
  split.
  - intros Hn. unfold handle_timeout, with_connection.
    unfold bind at 1, get. rewrite Hf.
    unfold handle_connection_timeout_Expire, expire_job, job_restart_expired.
    munfold. simpl. rewrite Hp. simpl. rewrite lookup_insert_eq. simpl.
    rewrite Hn. reflexivity.
  - intros r Hr.
    assert (E : exists s1 r' p1,
              expire_job c s = Ok r' s1
              /\ timer s1
                 = (Timer.insert_at
                      (clock s
                       + (if localDebug then minutes 10 else minutes 2))
                      (Timer.CloseNoReply c) (timer s)).2
              /\ peers s1 !! c = Some p1
              /\ job_timer (job p1) = Some (Timer.fresh (timer s))
              /\ as_request (data_v (job p1)) = Some r'
              /\ nonce (request_base r') = nonce (request_base r)
              /\ out s1 = out s).
    { destruct (unref_keeps_request (data_v (job p)) (activeRequests s) r Hr)
        as (r' & Hr' & Hn).
      unfold expire_job, job_restart_expired, unref_active_requests.
      munfold. simpl. rewrite Hp. simpl. rewrite lookup_insert_eq. simpl.
      rewrite Hr. simpl. rewrite lookup_insert_eq. simpl.
      destruct (unref_data (data_v (job p)) (activeRequests s))
        as [d n] eqn:Hu.
      munfold. simpl. rewrite lookup_insert_eq. simpl.
      simpl in Hr'. rewrite Hr'.
      do 3 eexists. split; [reflexivity|]. simpl.
      rewrite lookup_insert_eq. simpl.
      repeat split; try reflexivity; assumption. }
    destruct E as (s1 & r' & p1 & E & H1 & H2 & H3 & H4 & H5 & H6).
    exists s1, r', p1. split; [exact E|].
    split; [|repeat split; assumption].
    unfold handle_timeout, with_connection.
    unfold bind at 1, get. rewrite Hf.
    unfold handle_connection_timeout_Expire, bind at 1. rewrite E.
    reflexivity.
Qed.

(** *** Offering the signed snapshot *)

(** [signed_snapshot()] reads the chain cache; a [LeaderMsg] is serialised
    into the buffer that is sent. *)
Variable signed_snapshot : Ext -> option SignedSnapshot.
Variable leader_buffer : SignedSnapshot -> Sndbuffer.

(** [Eventloop::consider_send_snapshot]. *)
Definition consider_send_snapshot (c : Z) : Loop unit :=
  let* s := get in
  match signed_snapshot (ext s) with
  | Some ss =>
      let* p := peer_of c in
      let theirPriority := theirSnapshotPriority p in
      let snapshotPriority := priority ss in
      if Priority_lt theirPriority snapshotPriority
      then
        run send c (leader_buffer ss) then
        let* p' := peer_of c in
        put_peer c (set_theirSnapshotPriority (priority ss) p')
      else ret tt
  | None => ret tt
  end.

Lemma Priority_lt_irrefl p : Priority_lt p p = false.
Proof.
  unfold Priority_lt. rewrite !Z.ltb_irrefl, andb_false_r. reflexivity.
Qed.

(** X18. [consider_send_snapshot] offers the current signed snapshot to a peer
    at most once: a [LeaderMsg] is sent exactly when the priority the peer
    is known to have is below the snapshot's, that priority is then raised
    to the snapshot's, and a second call sends nothing and changes
    nothing.  Without a snapshot nothing happens. *)
Theorem snapshot_is_offered_once c s con p :
  conns s !! c = Some con -> eventloop_erased con = false ->
  peers s !! c = Some p ->
  (signed_snapshot (ext s) = None -> consider_send_snapshot c s = Ok tt s)
  /\ (forall ss, signed_snapshot (ext s) = Some ss ->
      let offer := Priority_lt (theirSnapshotPriority p) (priority ss) in
      exists s' p',
        consider_send_snapshot c s = Ok tt s'
        /\ out s'
           = out s ++ (if offer then [AsyncSend c (leader_buffer ss)] else [])
        /\ peers s' !! c = Some p'
        /\ theirSnapshotPriority p'
           = (if offer then priority ss else theirSnapshotPriority p)
        /\ acknowledgedSnapshotPriority p' = acknowledgedSnapshotPriority p
        /\ consider_send_snapshot c s' = Ok tt s').
Proof.
  intros Hc He Hp. split.
  - intros Hn. unfold consider_send_snapshot, bind, get. rewrite Hn.
    reflexivity.
  - intros ss Hs offer. unfold consider_send_snapshot, send. munfold.
    rewrite Hs, Hp. fold offer. destruct offer eqn:Ho; cbn -[Priority_lt].
    + rewrite Hc, He. cbn -[Priority_lt]. rewrite Hp. cbn -[Priority_lt].
      do 2 eexists. split; [reflexivity|]. cbn -[Priority_lt]. rewrite Hs.
      rewrite lookup_insert_eq. cbn -[Priority_lt].
      split; [reflexivity|]. split; [reflexivity|].
      split; [reflexivity|]. split; [reflexivity|].
      rewrite lookup_insert_eq. cbn -[Priority_lt].
      rewrite Priority_lt_irrefl. reflexivity.
    + exists s, p. rewrite Hs, Hp. fold offer. rewrite Ho, app_nil_r.
      repeat split; reflexivity.
Qed.

(** *** Block requests and their replies *)

(** [stateServer.async_get_blocks(range, callback)]: the chain server is
    asked for the bodies; the answer comes back as an [OnForwardBlockrep]
    event. *)
Variable async_get_blocks : Z -> Z -> Z -> Ext -> Ext.

(** [Eventloop::handle_msg(Conref, BlockreqMsg&&)]. *)
Definition handle_msg_Blockreq (cr : Z) (req_nonce lower upper : Z)
  : Loop unit :=
  let* p := peer_of cr in
  run put_peer cr (set_lastNonce req_nonce p) then
  modify (fun s => set_ext (async_get_blocks lower upper cr (ext s)) s).

(** X19. A forwarded block reply is tagged with the nonce of the peer's most
    recent block request, whichever request the bodies answer: after two
    block requests with nonces [n1] and [n2], the reply that is queued when
    bodies are forwarded carries [n2]. *)
Theorem block_reply_carries_latest_nonce cr n1 l1 u1 n2 l2 u2 blocks s con p :
  conns s !! cr = Some con -> eventloop_erased con = false ->
  peers s !! cr = Some p ->
  exists s1 s2 s3 p3,
    handle_msg_Blockreq cr n1 l1 u1 s = Ok tt s1
    /\ handle_msg_Blockreq cr n2 l2 u2 s1 = Ok tt s2
    /\ out s2 = out s
    /\ handle_event_OnForwardBlockrep cr blocks s2 = Ok tt s3
    /\ peers s3 !! cr = Some p3
    /\ th_queue (throttled p3)
       = th_queue (throttled p) ++ [SndBlockrep n2 blocks]
    /\ lastNonce p3 = n2.
Proof.
  intros Hc He Hp.
  set (p2 := set_lastNonce n2 (set_lastNonce n1 p)).
  set (s2 := set_ext (async_get_blocks l2 u2 cr
                        (async_get_blocks l1 u1 cr (ext s)))
               (set_peers (<[cr := p2]> (peers s)) s)).
  destruct (forward_ok cr blocks s2 con p2)
    as (s3 & E & _ & _ & _ & _ & Hp3 & _);
    [exact Hc | exact He | apply lookup_insert_eq |].
  eexists. exists s2, s3. eexists.
  unfold handle_msg_Blockreq. munfold. rewrite Hp. simpl.
  split; [reflexivity|]. simpl. rewrite lookup_insert_eq. simpl.
  rewrite insert_insert_eq.
  split; [reflexivity|]. split; [reflexivity|]. split; [exact E|].
  rewrite Hp3, lookup_insert_eq.
  split; [reflexivity|]. split; reflexivity.
Qed.

(** *** Shutdown *)

(** [stateServer.shutdown_join()]. *)
Variable shutdown_join : Ext -> Ext.

(** Modelled from the spec: [connections.all()] of the address manager is
    not among the sources; it ranges over the registry, "a set of peer
    records keyed by connection id", here in key order. *)
Definition connections_all (s : State) : list Z := (map_to_list (peers s)).*1.

(** The body of the loop in [check_shutdown]. *)
Definition erase_unless_erased (error : Error) (cr : Z) : Loop unit :=
  let* con := conn_of cr in
  if eventloop_erased con then ret tt else erase cr error.

(** [Eventloop::check_shutdown]. *)
Definition check_shutdown : Loop bool :=
  let* s := get in
  if closeReason s =? 0 then ret false
  else
    run for_each (connections_all s)
          (erase_unless_erased (EOTHER (closeReason s))) then
    run modify (fun s' => set_ext (shutdown_join (ext s')) s') then
    ret true.

Definition present (s : State) (c : Z) : Prop :=
  is_Some (conns s !! c) /\ is_Some (peers s !! c).

Definition erased_at (s : State) (c : Z) : Prop :=
  exists con, conns s !! c = Some con /\ eventloop_erased con = true.

Lemma erase_unless_erased_ok error c s :
  present s c ->
  exists s1,
    erase_unless_erased error c s = Ok tt s1
    /\ out s1 = out s /\ closeReason s1 = closeReason s
    /\ erased_at s1 c
    /\ (forall c', present s c' -> present s1 c')
    /\ (forall c', erased_at s c' -> erased_at s1 c')
    /\ (forall c', is_Some (peers s1 !! c') -> is_Some (peers s !! c')).
Proof.
  intros [[con Hc] [p Hp]]. unfold present, erased_at.
  unfold erase_unless_erased. munfold. rewrite Hc.
  destruct (eventloop_erased con) eqn:He.
  - exists s. split; [reflexivity|]. split; [reflexivity|].
    split; [reflexivity|]. split; [exists con; split; assumption|].
    split; [intros c' H; exact H|]. split; intros c' H; exact H.
  - destruct (erase_ok c error s con p Hc He Hp)
      as (s1 & E & Hc1 & Hp1 & _ & _ & Ho & _ & Hr & _).
    exists s1. split; [exact E|]. split; [exact Ho|]. split; [exact Hr|].
    split.
    { eexists. rewrite Hc1, lookup_insert_eq. split; reflexivity. }
    split.
    { intros c' [H1 H2]. split.
      - rewrite Hc1. apply lookup_insert_is_Some.
        destruct (decide (c = c')); [left; assumption | right; split; assumption].
      - rewrite Hp1. apply lookup_insert_is_Some.
        destruct (decide (c = c')); [left; assumption | right; split; assumption]. }
    split.
    { intros c' (con' & H1 & H2). rewrite Hc1.
      destruct (decide (c = c')) as [<-|Hne].
      - eexists. rewrite lookup_insert_eq. split; reflexivity.
      - exists con'. rewrite lookup_insert_ne by exact Hne.
        split; assumption. }
    intros c' H. rewrite Hp1 in H. apply lookup_insert_is_Some in H.
    destruct H as [<- | [_ H]]; [exists p; exact Hp | exact H].
Qed.

Lemma erase_all_ok error l s :
  (forall c, In c l -> present s c) ->
  exists s',
    for_each l (erase_unless_erased error) s = Ok tt s'
    /\ out s' = out s /\ closeReason s' = closeReason s
    /\ (forall c, In c l -> erased_at s' c)
    /\ (forall c, present s c -> present s' c)
    /\ (forall c, erased_at s c -> erased_at s' c)
    /\ (forall c, is_Some (peers s' !! c) -> is_Some (peers s !! c)).
Proof.
  revert s. induction l as [|c l IH]; intros s Hall.
  - exists s. split; [reflexivity|]. split; [reflexivity|].
    split; [reflexivity|]. split; [intros c []|].
    split; [intros c H; exact H|]. split; intros c H; exact H.
  - destruct (erase_unless_erased_ok error c s (Hall c (or_introl eq_refl)))
      as (s1 & E1 & Ho1 & Hr1 & He1 & Hpr1 & Hk1 & Hd1).
    destruct (IH s1) as (s' & E & Ho & Hr & He & Hpr & Hk & Hd).
    { intros c' Hin. apply Hpr1, Hall. right. exact Hin. }
    exists s'. cbn [for_each]. unfold bind. rewrite E1.
    split; [exact E|]. split; [congruence|]. split; [congruence|].
    split.
    { intros c' [<-|Hin]; [apply Hk, He1 | apply He, Hin]. }
    split; [intros c' H; apply Hpr, Hpr1, H|].
    split; [intros c' H; apply Hk, Hk1, H|].
    intros c' H. apply Hd1, Hd, H.
Qed.

(** X20. [Eventloop::check_shutdown] returns [false] and does nothing while no
    close reason is set.  Once one is set it erases every peer of the
    registry that is not erased yet and returns [true]: afterwards no peer
    is found any more.  The peers are erased, not closed: nothing is posted
    to the transport. *)
Theorem shutdown_erases_every_peer s :
  (forall c, is_Some (peers s !! c) -> is_Some (conns s !! c)) ->
  (closeReason s = 0 -> check_shutdown s = Ok false s)
  /\ (closeReason s <> 0 ->
      exists s',
        check_shutdown s = Ok true s'
        /\ (forall c, find c s' = None)
        /\ out s' = out s
        /\ closeReason s' = closeReason s).
Proof.
  intros Hreg. unfold check_shutdown. unfold bind, get.
  cbv beta iota. split.
  - intros H0. rewrite H0. reflexivity.
  - intros Hne. destruct (Z.eqb_spec (closeReason s) 0) as [H0|_];
      [contradiction|].
    destruct (erase_all_ok (EOTHER (closeReason s)) (connections_all s) s)
      as (s1 & E & Ho & Hr & He & _ & _ & Hd).
    { intros c Hin. unfold connections_all in Hin.
      apply list_elem_of_In, list_elem_of_fmap in Hin.
      destruct Hin as ([c' p] & -> & Hin). apply elem_of_map_to_list in Hin.
      simpl. split; [apply Hreg|]; exists p; exact Hin. }
    rewrite E. unfold modify, ret.
    eexists. split; [reflexivity|]. simpl.
    split; [|split; assumption].
    intros c. unfold find. simpl.
    destruct (peers s1 !! c) as [p|] eqn:Hp; [|reflexivity].
    assert (Hin : In c (connections_all s)).
    { destruct (Hd c) as [p0 Hp0]; [exists p; exact Hp|].
      unfold connections_all. apply list_elem_of_In, list_elem_of_fmap.
      exists (c, p0). split; [reflexivity|].
      apply elem_of_map_to_list. exact Hp0. }
    destruct (He c Hin) as (con & Hc & Hflag). rewrite Hc, Hflag.
    reflexivity.
Qed.

End WithCollaborators.
End Eventloop.

(** ** Block body container: properties *)

Module BodyContainerProps.
Import BodyContainer.

(** C8. Constructing a container from a span longer than [MAXBLOCKSIZE]
    throws EBLOCKSIZE; from every span of at most [MAXBLOCKSIZE] bytes the
    constructor returns a container. *)
Theorem from_span_checks_size (MAXBLOCKSIZE : Z) (s : list byte) :
  (MAXBLOCKSIZE < Z.of_nat (length s) ->
   from_span MAXBLOCKSIZE s = inl EBLOCKSIZE)
  /\ (Z.of_nat (length s) <= MAXBLOCKSIZE ->
      exists c, from_span MAXBLOCKSIZE s = inr c).
Proof.
  unfold from_span.
  destruct (Z.ltb_spec MAXBLOCKSIZE (Z.of_nat (length s))) as [Hlt|Hge].
  - split; [reflexivity | lia].
  - split; [lia | intros _; eexists; reflexivity].
Qed.

(** C10. The span constructor never stores the span: for every span of at
    most [MAXBLOCKSIZE] bytes the container it returns has empty [bytes],
    whatever the span holds, so [parse_structure] on that container parses
    the empty body. *)
Theorem from_span_stores_nothing (MAXBLOCKSIZE : Z)
    (BodyStructure NonzeroHeight BlockVersion : Type)
    (BodyStructure_parse :
       list byte -> NonzeroHeight -> BlockVersion -> option BodyStructure)
    (s : list byte) (h : NonzeroHeight) (v : BlockVersion) :
  Z.of_nat (length s) <= MAXBLOCKSIZE ->
  exists c,
    from_span MAXBLOCKSIZE s = inr c
    /\ bytes c = []
    /\ parse_structure BodyStructure NonzeroHeight BlockVersion
         BodyStructure_parse c h v
       = BodyStructure_parse [] h v
    /\ (forall s', Z.of_nat (length s') <= MAXBLOCKSIZE ->
          from_span MAXBLOCKSIZE s' = inr c).
Proof.
  intros Hle. unfold from_span.
  destruct (Z.ltb_spec MAXBLOCKSIZE (Z.of_nat (length s))) as [Hlt|_]; [lia|].
  eexists. split; [reflexivity|].
  split; [reflexivity|]. split; [reflexivity|].
  intros s' Hle'.
  destruct (Z.ltb_spec MAXBLOCKSIZE (Z.of_nat (length s'))); [lia|].
  reflexivity.
Qed.

Lemma from_span_stores_nothing_witness :
  exists c,
    from_span 4 [x01; x02] = inr c
    /\ bytes c = []
    /\ parse_structure (list byte) unit unit (fun b _ _ => Some b) c tt tt
       = Some []
    /\ (forall s', Z.of_nat (length s') <= 4 -> from_span 4 s' = inr c).
Proof.
  apply (from_span_stores_nothing 4 (list byte) unit unit
           (fun b _ _ => Some b) [x01; x02] tt tt).
  simpl. lia.
Defined.

End BodyContainerProps.

(** ** A concrete loop *)

(** Collaborators that do nothing, and a loop with one registered peer
    (connection 1), on which the properties of the event loop are run. *)
Module Example.
Import Eventloop.

Definition Ext : Type := unit.
Definition no_erase (_ : Z) (x : Ext) : bool * Ext := (false, x).
Definition wakeup_never (_ : Ext) : option Z := None.
Definition keep (x : Ext) : Ext := x.
Definition keep_for (_ : Z) (x : Ext) : Ext := x.
Definition no_connect (x : Ext) : list Z * Ext := ([], x).
Definition no_offenders (_ : Z) (_ : Batchrequest) (_ : list Z) (x : Ext)
  : list ChainOffender * Ext := ([], x).
Definition on_expire_nothing (_ : Z) (_ : Request) (x : Ext) : Ext := x.
Definition nothing : M (State Ext) unit := ret tt.
Definition ignore_msg (_ : Z) (_ : Message) : M (State Ext) unit := ret tt.
Definition ignore_proberep (_ : Z) (_ : Proberequest) (_ : bool)
  : M (State Ext) unit := ret tt.
Definition ignore_blockrep (_ : Z) (_ : Blockrequest)
    (_ : list BodyContainer.t) : M (State Ext) unit := ret tt.

Definition con1 : Connection := mk_conn true false [].

Definition peer_with (j : JobData) : PeerState :=
  mk_peer (mk_job j None) (mk_ping None) (mk_throttled [] None 0) 0
    (mk_priority 0 0) (mk_priority 0 0).

Definition idle_peer : PeerState := peer_with Monostate.

Definition state_with (p : PeerState) : State Ext :=
  mk_state Ext tt {[ 1 := con1 ]} {[ 1 := p ]} Timer.empty None 0 10 0
    false 0 [] [].

Definition s0 : State Ext := state_with idle_peer.

(** The state an outcome ends in ([s0] after an abort). *)
Definition state_of {A} (o : Outcome (State Ext) A) : State Ext :=
  match o with
  | Ok _ s => s
  | Throw _ s => s
  | Abort => s0
  end.

Lemma registry_ok_state_with p : registry_ok Ext (state_with p).
Proof.
  intros c q H. simpl in H. apply lookup_singleton_Some in H as [<- _].
  exists con1. split; reflexivity.
Qed.

(** *** C4 *)

Definition leader1 : SignedSnapshot := mk_snapshot (mk_priority 1 0) 7.

Lemma leader_requires_higher_priority_witness :
  exists s' p',
    handle_msg_Leader Ext no_erase no_erase no_erase wakeup_never keep
      1 leader1 s0 = Ok tt s'
    /\ peers Ext s' !! 1 = Some p'
    /\ acknowledgedSnapshotPriority p' = mk_priority 1 0
    /\ theirSnapshotPriority p' = mk_priority 1 0
    /\ out Ext s' = [AsyncSetSignedCheckpoint leader1]
    /\ find Ext 1 s' = Some p'.
Proof.
  apply (proj2 (leader_requires_higher_priority Ext no_erase no_erase
                  no_erase wakeup_never keep 1 leader1 s0 con1 idle_peer
                  eq_refl eq_refl eq_refl eq_refl)).
  reflexivity.
Defined.

(** *** C7 *)

Definition batch_request : Batchrequest :=
  mk_batch (mk_req 5 true 30000) 1 3 100.

Definition s_batch : State Ext := state_with (peer_with (JobBatch batch_request)).

Lemma batchrep_size_gate_witness :
  exists s',
    handle_msg_Batchrep Ext no_erase no_erase no_erase wakeup_never keep
      no_offenders nothing nothing 1 5 [] s_batch = Ok tt s'
    /\ out Ext s' = [AsyncClose 1 EBATCHSIZE]
    /\ find Ext 1 s' = None.
Proof.
  destruct (batchrep_size_gate Ext no_erase no_erase no_erase wakeup_never
              keep no_offenders nothing nothing 1 5 [] s_batch con1
              (peer_with (JobBatch batch_request)) batch_request
              (registry_ok_state_with _) eq_refl eq_refl eq_refl eq_refl
              eq_refl eq_refl)
    as (s1 & _ & _ & Hbad & _).
  destruct Hbad as (s' & H1 & H2 & H3 & H4); [left; simpl; lia|].
  exists s'. rewrite H1. repeat split; assumption.
Defined.

(** *** C2 *)

Definition rejected : Error -> Z -> Rcvbuffer -> list Rcvbuffer ->
                      State Ext -> Prop :=
  rejected_with Ext no_erase no_erase no_erase wakeup_never keep keep_for
    no_offenders false nothing nothing ignore_msg ignore_proberep
    ignore_blockrep.

Definition s_await : State Ext := state_with (peer_with AwaitInit).
Definition ping_buffer : Rcvbuffer := mk_rcv true (inr (PingMsg 3 (mk_priority 0 0))).

Lemma dispatch_errors_close_peer_witness :
  rejected ENOINIT 1 ping_buffer [] s_await.
Proof.
  apply (proj1 (proj2 (dispatch_errors_close_peer Ext no_erase no_erase
                         no_erase wakeup_never keep keep_for no_offenders
                         false nothing nothing ignore_msg ignore_proberep
                         ignore_blockrep 1 ping_buffer [] s_await con1
                         (peer_with AwaitInit)
                         eq_refl eq_refl eq_refl eq_refl)
                  (PingMsg 3 (mk_priority 0 0)) eq_refl eq_refl));
    reflexivity.
Defined.

(** *** C6 *)

Definition handle_timeout0 : Timer.Event -> M (State Ext) unit :=
  handle_timeout Ext no_erase no_erase no_erase wakeup_never no_connect keep
    on_expire_nothing false nothing.





(** *** C1 *)

Definition send0 : Z -> Request -> M (State Ext) unit :=
  RequestSender_send Ext.

Definition probe_request : Request :=
  ReqProbe (mk_probe (mk_req 9 true 30000) 50).

Definition s_sent : State Ext := state_of (send0 1 probe_request s0).




(** *** C3 *)

Definition forward0 : Z -> list BodyContainer.t -> M (State Ext) unit :=
  handle_event_OnForwardBlockrep Ext.

Definition reply_a : list BodyContainer.t := [BodyContainer.mk [x01]].





(** *** Closing, releasing and timing out the peer of [s0] *)

Definition erase0 : Z -> Error -> M (State Ext) unit :=
  erase Ext no_erase no_erase no_erase wakeup_never keep.
Definition close0 : Z -> Error -> M (State Ext) unit :=
  close Ext no_erase no_erase no_erase wakeup_never keep.

Lemma erase_is_final_witness :
  exists s',
    erase0 1 ETIMEOUT s0 = Ok tt s'
    /\ conns Ext s' !! 1 = Some (mk_conn true true [])
    /\ out Ext s' = []
    /\ (forall err', erase0 1 err' s' = Ok tt s')
    /\ (forall b, send Ext 1 b s' = Ok tt s').
Proof.
  exact (proj2 (erase_is_final Ext no_erase no_erase no_erase wakeup_never
                  keep 1 ETIMEOUT s0 con1 eq_refl)
           idle_peer eq_refl eq_refl).
Defined.

Lemma close_posts_async_close_witness :
  exists s',
    close0 1 ECHECKSUM s0 = Ok tt s'
    /\ out Ext s' = [AsyncClose 1 ECHECKSUM]
    /\ conns Ext s' !! 1 = Some (mk_conn true true [])
    /\ (forall b, send Ext 1 b s' = Ok tt s').
Proof.
  exact (proj2 (proj2 (close_posts_async_close Ext no_erase no_erase
                         no_erase wakeup_never keep 1 ECHECKSUM s0 con1
                         eq_refl))
           idle_peer eq_refl eq_refl eq_refl).
Defined.

Lemma release_erases_without_close_witness :
  exists s',
    handle_event_OnRelease Ext no_erase no_erase no_erase wakeup_never keep
      1 (EOTHER 104) s0 = Ok tt s'
    /\ out Ext s' = []
    /\ find Ext 1 s' = None
    /\ activeRequests Ext s' = 0.
Proof.
  exact (proj2 (release_erases_without_close Ext no_erase no_erase no_erase
                  wakeup_never keep 1 (EOTHER 104) s0 con1 eq_refl)
           idle_peer eq_refl eq_refl eq_refl).
Defined.

Lemma timeout_for_gone_peer_is_ignored_witness :
  handle_timeout0 (Timer.Expire 2) s0 = Ok tt s0.
Proof.
  apply (timeout_for_gone_peer_is_ignored Ext no_erase no_erase no_erase
           wakeup_never no_connect keep on_expire_nothing false nothing
           (Timer.Expire 2) 2 s0); reflexivity.
Defined.

Lemma silent_peer_is_closed_with_ETIMEOUT_witness :
  exists s',
    handle_timeout0 (Timer.CloseNoReply 1) s0 = Ok tt s'
    /\ out Ext s' = [AsyncClose 1 ETIMEOUT]
    /\ find Ext 1 s' = None
    /\ activeRequests Ext s' = 0.
Proof.
  apply (silent_peer_is_closed_with_ETIMEOUT Ext no_erase no_erase no_erase
           wakeup_never no_connect keep on_expire_nothing false nothing
           (Timer.CloseNoReply 1) 1 s0 con1 idle_peer);
    try reflexivity.
  left. reflexivity.
Defined.

Lemma unanswered_ping_closes_peer_witness :
  exists s1,
    handle_timeout0 (Timer.SendPing 1) s0 = Ok tt s1
    /\ out Ext s1 = [AsyncSend 1 (SndOther 0)]
    /\ timer Ext s1
       = (Timer.insert_at 60000 (Timer.CloseNoPong 1) Timer.empty).2
    /\ peers Ext s1 !! 1
       = Some (set_ping (mk_ping (Some 0%nat)) idle_peer)
    /\ exists s2,
         handle_timeout0 (Timer.CloseNoPong 1) s1 = Ok tt s2
         /\ out Ext s2 = out Ext s1 ++ [AsyncClose 1 ETIMEOUT]
         /\ find Ext 1 s2 = None.
Proof.
  apply (unanswered_ping_closes_peer Ext no_erase no_erase no_erase
           wakeup_never no_connect keep on_expire_nothing false nothing
           1 s0 con1 idle_peer); reflexivity.
Defined.

(** The peer of [s_sent] waits for the reply to [probe_request]. *)
Lemma expired_request_gets_a_deadline_witness :
  exists s1 r' p1,
    expire_job Ext false 1 s_sent = Ok r' s1
    /\ handle_timeout0 (Timer.Expire 1) s_sent
       = on_request_expired Ext on_expire_nothing nothing 1 r' s1
    /\ timer Ext s1
       = (Timer.insert_at 120000 (Timer.CloseNoReply 1)
            (timer Ext s_sent)).2
    /\ peers Ext s1 !! 1 = Some p1
    /\ job_timer (job p1) = Some 1%nat
    /\ as_request (data_v (job p1)) = Some r'
    /\ nonce (request_base r') = 9
    /\ out Ext s1 = out Ext s_sent.
Proof.
  exact (proj2 (expired_request_gets_a_deadline Ext no_erase no_erase
                  no_erase wakeup_never no_connect keep on_expire_nothing
                  false nothing 1 s_sent con1
                  (default idle_peer (peers Ext s_sent !! 1))
                  eq_refl eq_refl eq_refl)
           probe_request eq_refl).
Defined.

(** *** A refused connection *)

Definition refuse_all (_ : Z) (x : Ext) : option Error * Ext :=
  (Some (EOTHER 7), x).

Definition con_fresh : Connection :=
  mk_conn false false [mk_rcv true (inr InitMsg)].

Definition s_fresh : State Ext :=
  mk_state Ext tt {[ 2 := con_fresh ]} ∅ Timer.empty None 0 10 0 false 0
    [] [].

Definition process_refusing : Z -> M (State Ext) unit :=
  process_connection Ext no_erase no_erase no_erase refuse_all wakeup_never
    no_connect keep keep_for no_offenders false nothing nothing ignore_msg
    ignore_proberep ignore_blockrep.

Lemma process_connection_refused_witness :
  exists s',
    process_refusing 2 s_fresh = Ok tt s'
    /\ conns Ext s'
       = <[2 := mk_conn true true (inbox con_fresh)]> (conns Ext s_fresh)
    /\ peers Ext s' = peers Ext s_fresh
    /\ out Ext s'
       = out Ext s_fresh ++ List.map AsyncConnect (no_connect tt).1
         ++ [AsyncClose 2 (EOTHER 7)]
    /\ process_refusing 2 s' = Ok tt s'.
Proof.
  unfold process_refusing.
  eapply process_connection_refused; reflexivity.
Defined.

(** *** Snapshots, block requests and shutdown *)

Definition snapshot_leader1 (_ : Ext) : option SignedSnapshot := Some leader1.
Definition leader_tag (_ : SignedSnapshot) : Sndbuffer := SndOther 16.

Lemma snapshot_is_offered_once_witness :
  exists s' p',
    consider_send_snapshot Ext snapshot_leader1 leader_tag 1 s0 = Ok tt s'
    /\ out Ext s' = [AsyncSend 1 (SndOther 16)]
    /\ peers Ext s' !! 1 = Some p'
    /\ theirSnapshotPriority p' = mk_priority 1 0
    /\ acknowledgedSnapshotPriority p' = mk_priority 0 0
    /\ consider_send_snapshot Ext snapshot_leader1 leader_tag 1 s' = Ok tt s'.
Proof.
  exact (proj2 (snapshot_is_offered_once Ext snapshot_leader1 leader_tag 1
                  s0 con1 idle_peer eq_refl eq_refl eq_refl)
           leader1 eq_refl).
Defined.

Definition get_blocks_nothing (_ _ _ : Z) (x : Ext) : Ext := x.

Lemma block_reply_carries_latest_nonce_witness :
  exists s1 s2 s3 p3,
    handle_msg_Blockreq Ext get_blocks_nothing 1 41 10 19 s0 = Ok tt s1
    /\ handle_msg_Blockreq Ext get_blocks_nothing 1 42 20 29 s1 = Ok tt s2
    /\ out Ext s2 = []
    /\ forward0 1 reply_a s2 = Ok tt s3
    /\ peers Ext s3 !! 1 = Some p3
    /\ th_queue (throttled p3) = [SndBlockrep 42 reply_a]
    /\ lastNonce p3 = 42.
Proof.
  exact (block_reply_carries_latest_nonce Ext get_blocks_nothing
           1 41 10 19 42 20 29 reply_a s0 con1 idle_peer
           eq_refl eq_refl eq_refl).
Defined.

(** [s0] with the close reason set. *)
Definition s_closing : State Ext :=
  mk_state Ext tt {[ 1 := con1 ]} {[ 1 := idle_peer ]} Timer.empty None 0 10
    0 true 5 [] [].

Lemma shutdown_erases_every_peer_witness :
  exists s',
    check_shutdown Ext no_erase no_erase no_erase wakeup_never keep keep
      s_closing = Ok true s'
    /\ (forall c, find Ext c s' = None)
    /\ out Ext s' = []
    /\ closeReason Ext s' = 5.
Proof.
  refine (proj2 (shutdown_erases_every_peer Ext no_erase no_erase no_erase
                   wakeup_never keep keep s_closing _) _).
  - intros c [p H]. simpl in H. apply lookup_singleton_Some in H as [<- _].
    exists con1. reflexivity.
  - intros H. discriminate H.
Defined.
End Example.

(** ** Proof-of-work targets: [TargetV1::compatible] and [TargetV1::difficulty] *)

Module TargetV1Props.
Import TargetV1.

(** *** Binary64 arithmetic on the values [difficulty] meets *)

Lemma digits2_pos_size p : digits2_pos p = Pos.size p.
Proof. induction p; simpl; congruence. Qed.

(** A positive number with [d] binary digits. *)
Lemma digits_of_range p d :
  2 ^ (d - 1) <= Zpos p < 2 ^ d -> Zpos (digits2_pos p) = d.
Proof.
  intros [Hlo Hhi]. rewrite digits2_pos_size.
  pose proof (Pos.size_gt p) as Hgt. pose proof (Pos.size_le p) as Hle.
  apply Pos2Z.pos_lt_pos in Hgt. apply Pos2Z.pos_le_pos in Hle.
  rewrite Pos2Z.inj_pow in Hgt, Hle.
  set (S := Zpos (Pos.size p)) in *.
  assert (HS : 0 < S) by (apply Pos2Z.is_pos).
  assert (Hd : 0 < d).
  { destruct (Z.lt_ge_cases 0 d) as [H|H]; [exact H|].
    exfalso. destruct (Z.eq_dec d 0) as [->|Hne].
    - change (2 ^ 0) with 1 in Hhi. lia.
    - rewrite (Z.pow_neg_r 2 d) in Hhi by lia. lia. }
  assert (H1 : d - 1 < S).
  { apply (Z.pow_lt_mono_r_iff 2); lia. }
  assert (H2 : S < d + 1).
  { apply (Z.pow_lt_mono_r_iff 2); try lia.
    rewrite Z.pow_add_r by lia. change (2 ^ 1) with 2. lia. }
  lia.
Qed.

Lemma iter_xO_shift p n : Zpos (Pos.iter xO p n) = Zpos p * 2 ^ Zpos n.
Proof.
  induction n as [|n IH] using Pos.peano_ind.
  - simpl. lia.
  - rewrite Pos.iter_succ, Pos2Z.inj_xO, IH, Pos2Z.inj_succ, Z.pow_succ_r by lia.
    lia.
Qed.

(** Rounding a 53-digit mantissa in the normal range leaves it alone, up to
    the last-place increment the location asks for. *)
Lemma round_aux_normal m e l :
  2 ^ 52 <= Zpos m < 2 ^ 53 ->
  (l <> loc_Exact -> Zpos m + 1 < 2 ^ 53) ->
  -1074 <= e <= 971 ->
  exists m',
    binary_round_aux prec emax false (Zpos m) e l = S754_finite false m' e
    /\ Zpos m <= Zpos m' <= Zpos m + 1
    /\ (l = loc_Exact -> m' = m).
Proof.
  intros Hm Hl He.
  assert (Hfexp : forall m0, 2 ^ 52 <= Zpos m0 < 2 ^ 53 ->
            fexp prec emax (Zdigits2 (Zpos m0) + e) - e = 0).
  { intros m0 Hm0. simpl Zdigits2.
    rewrite (digits_of_range m0 53) by (simpl; lia).
    unfold fexp, SpecFloat.emin, prec, emax. lia. }
  unfold binary_round_aux, shr_fexp.
  rewrite (Hfexp m) by lia. unfold shr at 1.
  set (v := round_nearest_even _ _).
  assert (Hv : exists m', v = Zpos m' /\ Zpos m <= Zpos m' <= Zpos m + 1
                          /\ Zpos m' < 2 ^ 53
                          /\ (l = loc_Exact -> m' = m)).
  { unfold v. destruct l as [|[| |]]; cbn -[Z.even Z.add Z.pow].
    - exists m. split; [reflexivity|]. split; [lia|]. split; [lia|reflexivity].
    - assert (Zpos m + 1 < 2 ^ 53) by (apply Hl; discriminate).
      destruct (Z.even (Zpos m)).
      + exists m. split; [reflexivity|]. split; [lia|].
        split; [lia | reflexivity].
      + exists (m + 1)%positive.
        split; [reflexivity|]. split; [lia|]. split; [lia | discriminate].
    - exists m. split; [reflexivity|]. split; [lia|]. split; [lia|reflexivity].
    - assert (Zpos m + 1 < 2 ^ 53) by (apply Hl; discriminate).
      exists (m + 1)%positive.
      split; [reflexivity|]. split; [lia|]. split; [lia | discriminate]. }
  destruct Hv as (m' & -> & Hm' & Hlt & Hex).
  rewrite (Hfexp m') by lia. unfold shr. simpl shr_m.
  replace (e <=? emax - prec) with true
    by (symmetry; apply Z.leb_le; unfold emax, prec; lia).
  exists m'. repeat split; try lia. exact Hex.
Qed.

(** The double of a 24-digit integer. *)
Lemma of_uint63_normal b :
  2 ^ 23 <= b < 2 ^ 24 ->
  Prim2SF (of_uint63 (of_Z b)) = S754_finite false (Z.to_pos (b * 2 ^ 29)) (-29).
Proof.
  intros Hb. rewrite of_uint63_spec, of_Z_spec.
  rewrite Z.mod_small by (unfold Uint63.wB, Uint63.size; simpl; lia).
  destruct b as [|pb|pb]; try lia.
  unfold binary_normalize, binary_round.
  rewrite (digits_of_range pb 24) by (simpl; lia).
  change (fexp prec emax (24 + 0)) with (-29).
  unfold shl_align. change (-29 - 0) with (Zneg 29).
  destruct (round_aux_normal (Pos.iter xO pb 29) (-29) loc_Exact)
    as (m' & E & _ & Hex).
  - rewrite iter_xO_shift. lia.
  - intros H; contradiction.
  - lia.
  - rewrite E, (Hex eq_refl). f_equal.
    apply Pos2Z.inj. rewrite iter_xO_shift, Z2Pos.id by lia. reflexivity.
Qed.

(** [1 / b] for a 24-digit [b] other than [2^23]: the quotient [2^76 / b]
    rounded in the last place. *)
Lemma div_one_normal b :
  2 ^ 23 < b < 2 ^ 24 ->
  exists m,
    Prim2SF (1 / of_uint63 (of_Z b)) = S754_finite false m (-76)
    /\ 2 ^ 76 / b <= Zpos m <= 2 ^ 76 / b + 1
    /\ 2 ^ 52 < Zpos m < 2 ^ 53.
Proof.
  intros Hb. rewrite FloatAxioms.div_spec, of_uint63_normal by lia.
  change (Prim2SF 1) with (S754_finite false 4503599627370496 (-52)).
  unfold SF64div, SFdiv, SFdiv_core_binary.
  assert (Hm2 : Zpos (Z.to_pos (b * 2 ^ 29)) = b * 2 ^ 29)
    by (apply Z2Pos.id; lia).
  assert (D1 : Zdigits2 (Zpos 4503599627370496) = 53) by reflexivity.
  assert (D2 : Zdigits2 (Zpos (Z.to_pos (b * 2 ^ 29))) = 53).
  { apply (digits_of_range _ 53). rewrite Hm2. lia. }
  rewrite D1, D2. cbv zeta.
  change (Z.min (fexp prec emax (53 + -52 - (53 + -29))) (-52 - -29))
    with (-76).
  change (-52 - -29 - -76) with 53.
  change (Z.shiftl 4503599627370496 53) with (2 ^ 105).
  rewrite Hm2.
  assert (Hq : 2 ^ 105 / (b * 2 ^ 29) = 2 ^ 76 / b).
  { change (2 ^ 105) with (2 ^ 76 * 2 ^ 29).
    apply Z.div_mul_cancel_r; lia. }
  assert (Hqlo : 2 ^ 52 < 2 ^ 76 / b).
  { assert (2 ^ 76 / (2 ^ 24 - 1) <= 2 ^ 76 / b)
      by (apply Z.div_le_compat_l; lia).
    assert (2 ^ 52 < 2 ^ 76 / (2 ^ 24 - 1)) by (vm_compute; reflexivity).
    lia. }
  assert (Hqhi : 2 ^ 76 / b + 1 < 2 ^ 53 - 1).
  { assert (2 ^ 76 / b <= 2 ^ 76 / (2 ^ 23 + 1))
      by (apply Z.div_le_compat_l; lia).
    assert (2 ^ 76 / (2 ^ 23 + 1) < 2 ^ 53 - 2) by (vm_compute; reflexivity).
    lia. }
  remember (2 ^ 76 / b) as Q eqn:EQ. clear EQ.
  unfold Z.div in Hq.
  destruct (Z.div_eucl (2 ^ 105) (b * 2 ^ 29)) as [q r].
  subst q.
  destruct Q as [|pq|pq]; try lia.
  change (xorb false false) with false.
  destruct (round_aux_normal pq (-76) (new_location (b * 2 ^ 29) r))
    as (m' & E & Hm' & _); try lia.
  exists m'. split; [exact E|]. split; [exact Hm' | lia].
Qed.

(** [ldexp] of a normal number that stays normal only moves the
    exponent. *)
Lemma ldexp_normal f m e k :
  Prim2SF f = S754_finite false m e ->
  2 ^ 52 <= Zpos m < 2 ^ 53 -> -1074 <= e + k <= 971 ->
  -2000 <= k <= 2000 ->
  Prim2SF (Z.ldexp f k) = S754_finite false m (e + k).
Proof.
  intros Hf Hm He Hk. rewrite Z_ldexp_spec, Hf.
  unfold SFldexp, binary_round.
  rewrite (digits_of_range m 53) by (simpl; lia).
  replace (fexp prec emax (53 + (e + k))) with (e + k)
    by (unfold fexp, SpecFloat.emin, prec, emax; lia).
  unfold shl_align. rewrite Z.sub_diag.
  destruct (round_aux_normal m (e + k) loc_Exact) as (m' & E & _ & Hex);
    [lia | intros H; contradiction | lia |].
  rewrite E, (Hex eq_refl). reflexivity.
Qed.

(** *** The fields of a target *)

Lemma zeros8_range t : is_uint32 t -> 0 <= zeros8 t <= 255.
Proof.
  unfold is_uint32, zeros8. intros Ht. rewrite Z.shiftr_div_pow2 by lia.
  split.
  - apply Z.div_pos; lia.
  - assert (t / 2 ^ 24 < 2 ^ 8); [|lia].
    apply Z.div_lt_upper_bound; lia.
Qed.

Lemma bits24_mod t : bits24 t = t mod 2 ^ 24.
Proof.
  unfold bits24. rewrite Z.land_comm.
  change 16777215 with (Z.ones 24). apply Z.land_ones. lia.
Qed.

Lemma land_bit23 b :
  0 <= b < 2 ^ 24 -> (Z.land b 8388608 <> 0 <-> 2 ^ 23 <= b).
Proof.
  intros Hb.
  assert (Hbit : Z.land b 8388608 = if Z.testbit b 23 then 2 ^ 23 else 0).
  { apply Z.bits_inj'. intros n Hn. rewrite Z.land_spec.
    change 8388608 with (2 ^ 23). rewrite Z.pow2_bits_eqb by lia.
    destruct (Z.eqb_spec 23 n) as [<-|Hne].
    - rewrite andb_true_r. destruct (Z.testbit b 23) eqn:Ht.
      + rewrite Z.pow2_bits_true by lia. reflexivity.
      + rewrite Z.bits_0. reflexivity.
    - rewrite andb_false_r. destruct (Z.testbit b 23).
      + rewrite Z.pow2_bits_false by lia. reflexivity.
      + rewrite Z.bits_0. reflexivity. }
  rewrite Hbit.
  assert (Ht : Z.testbit b 23 = true <-> 2 ^ 23 <= b).
  { rewrite Z.testbit_true by lia.
    assert (Hd : b / 2 ^ 23 = 0 \/ b / 2 ^ 23 = 1).
    { assert (0 <= b / 2 ^ 23) by (apply Z.div_pos; lia).
      assert (b / 2 ^ 23 < 2) by (apply Z.div_lt_upper_bound; lia).
      lia. }
    split.
    - intros H. destruct Hd as [Hd|Hd]; rewrite Hd in H; [discriminate|].
      destruct (Z.lt_ge_cases b (2 ^ 23)) as [Hlt|]; [|assumption].
      rewrite Z.div_small in Hd by lia. discriminate.
    - intros H. destruct Hd as [Hd|Hd]; rewrite Hd; [|reflexivity].
      apply Z.div_small_iff in Hd; lia. }
  destruct (Z.testbit b 23).
  - split; [intros _; apply Ht; reflexivity | intros _; discriminate].
  - split; [intros H; exfalso; apply H; reflexivity|].
    intros H. apply Ht in H. discriminate.
Qed.

Lemma bits24_range t :
  is_uint32 t -> mantissa_normal t -> 2 ^ 23 <= bits24 t < 2 ^ 24.
Proof.
  intros Ht Hn. unfold mantissa_normal in Hn.
  assert (Hb : 0 <= bits24 t < 2 ^ 24)
    by (rewrite bits24_mod; apply Z.mod_pos_bound; lia).
  split; [|lia]. apply land_bit23; assumption.
Qed.

(** *** The double [difficulty] returns *)

(** For a target with a normal mantissa [b] and [z] zeros, [difficulty]
    is the finite double [m * 2^e] where either [b = 2^23], [m = 2^52] and
    [e = z - 51], or [b > 2^23], [e = z - 52] and [m] is [2^76 / b] rounded
    in the last place. *)
Lemma difficulty_repr t :
  is_uint32 t -> mantissa_normal t ->
  exists m e,
    Prim2SF (difficulty t) = S754_finite false m e
    /\ ((bits24 t = 2 ^ 23 /\ Zpos m = 2 ^ 52 /\ e = zeros8 t - 51)
        \/ (2 ^ 23 < bits24 t /\ e = zeros8 t - 52
            /\ 2 ^ 76 / bits24 t <= Zpos m <= 2 ^ 76 / bits24 t + 1
            /\ 2 ^ 52 < Zpos m < 2 ^ 53)).
Proof.
  intros Ht Hn. pose proof (bits24_range t Ht Hn) as Hb.
  pose proof (zeros8_range t Ht) as Hz. unfold difficulty.
  destruct (Z.eq_dec (bits24 t) (2 ^ 23)) as [Heq|Hne].
  - rewrite Heq. exists 4503599627370496%positive, (zeros8 t - 51).
    split; [|left; repeat split; reflexivity || exact Heq].
    replace (zeros8 t - 51) with (-75 + (zeros8 t + 24)) by lia.
    apply ldexp_normal; try lia. reflexivity.
  - destruct (div_one_normal (bits24 t)) as (m & E & Hq & Hm); [lia|].
    exists m, (zeros8 t - 52). split; [|right; repeat split; lia].
    replace (zeros8 t - 52) with (-76 + (zeros8 t + 24)) by lia.
    apply ldexp_normal; try lia. exact E.
Qed.

(** The order of two such doubles is the order of [(zeros, -mantissa)]. *)
Lemma difficulty_leb t1 t2 :
  is_uint32 t1 -> mantissa_normal t1 ->
  is_uint32 t2 -> mantissa_normal t2 ->
  PrimFloat.leb (difficulty t1) (difficulty t2) = true ->
  zeros8 t1 < zeros8 t2
  \/ (zeros8 t1 = zeros8 t2 /\ bits24 t2 <= bits24 t1).
Proof.
  intros Ht1 Hn1 Ht2 Hn2 Hle.
  pose proof (bits24_range t1 Ht1 Hn1) as Hb1.
  pose proof (bits24_range t2 Ht2 Hn2) as Hb2.
  destruct (difficulty_repr t1 Ht1 Hn1) as (m1 & e1 & E1 & R1).
  destruct (difficulty_repr t2 Ht2 Hn2) as (m2 & e2 & E2 & R2).
  rewrite FloatAxioms.leb_spec, E1, E2 in Hle. unfold SFleb, SFcompare in Hle.
  change (Pos.compare_cont Eq m1 m2) with (Pos.compare m1 m2) in Hle.
  assert (Hcmp : e1 < e2 \/ (e1 = e2 /\ Zpos m1 <= Zpos m2)).
  { destruct (Z.compare_spec e1 e2) as [He|He|He].
    - right. split; [exact He|].
      destruct (Pos.compare_spec m1 m2); try discriminate; lia.
    - left. exact He.
    - discriminate. }
  clear Hle E1 E2.
  destruct R1 as [(B1 & M1 & X1)|(B1 & X1 & Q1 & M1)];
    destruct R2 as [(B2 & M2 & X2)|(B2 & X2 & Q2 & M2)]; subst e1 e2.
  - lia.
  - lia.
  - destruct Hcmp as [H|[H1 H2]]; lia.
  - destruct Hcmp as [H|[H1 H2]]; [lia|].
    right. split; [lia|].
    destruct (Z.le_gt_cases (bits24 t2) (bits24 t1)) as [Hok|Hbad];
      [exact Hok | exfalso].
    set (b1 := bits24 t1) in *. set (b2 := bits24 t2) in *.
    pose proof (Z.mul_div_le (2 ^ 76) b2 ltac:(lia)) as L2.
    pose proof (Z.mul_succ_div_gt (2 ^ 76) b1 ltac:(lia)) as G1.
    set (q1 := 2 ^ 76 / b1) in *. set (q2 := 2 ^ 76 / b2) in *.
    assert (Hq : q1 <= q2 + 1) by lia.
    assert (H3 : b1 * Z.succ q1 <= (b2 - 1) * (q2 + 2)) by nia.
    nia.
Qed.

(** *** A hash as a number *)

Lemma byte_range b : 0 <= Z.of_N (Byte.to_N b) < 256.
Proof. pose proof (Byte.to_N_bounded b). lia. Qed.

Lemma hash_value_range h : 0 <= hash_value h < 256 ^ Z.of_nat (length h).
Proof.
  induction h as [|b h IH].
  - simpl. lia.
  - cbn [hash_value length]. rewrite Nat2Z.inj_succ, Z.pow_succ_r by lia.
    pose proof (byte_range b). lia.
Qed.

(** [hash[i]] is the [i]-th base-256 digit of the hash value. *)
Lemma at_digit h i :
  0 <= i -> at_ h i = (hash_value h / 256 ^ i) mod 256.
Proof.
  revert i. induction h as [|b h IH]; intros i Hi.
  - unfold at_. destruct (Z.to_nat i); simpl; rewrite Z.div_0_l;
      try reflexivity; apply Z.pow_nonzero; lia.
  - destruct (Z.eq_dec i 0) as [->|Hne].
    + unfold at_. change (Z.to_nat 0) with O. cbn [nth hash_value].
      rewrite Z.pow_0_r, Z.div_1_r.
      pose proof (byte_range b).
      rewrite (Z.mul_comm 256), Z.mod_add by lia.
      symmetry. apply Z.mod_small. lia.
    + assert (Hat : at_ (b :: h) i = at_ h (i - 1)).
      { unfold at_. replace (Z.to_nat i) with (S (Z.to_nat (i - 1))) by lia.
        reflexivity. }
      rewrite Hat, IH by lia. cbn [hash_value].
      replace (256 ^ i) with (256 * 256 ^ (i - 1))
        by (rewrite <- Z.pow_succ_r by lia; f_equal; lia).
      rewrite <- Z.div_div by (try apply Z.pow_pos_nonneg; lia).
      pose proof (byte_range b).
      rewrite (Z.mul_comm 256), Z.div_add by lia.
      rewrite (Z.div_small (Z.of_N (Byte.to_N b))) by lia.
      rewrite Z.add_0_l. reflexivity.
Qed.

Lemma all_zero_spec h f n :
  all_zero h f n = true
  <-> forall k, 0 <= k < n -> at_ h (f k) = 0.
Proof.
  unfold all_zero. rewrite forallb_forall. split.
  - intros H k Hk. specialize (H (Z.to_nat k)).
    rewrite Z2Nat.id in H by lia. apply Z.eqb_eq, H, in_seq. lia.
  - intros H k Hk. apply in_seq in Hk. apply Z.eqb_eq, H. lia.
Qed.

(** The low [n] digits are zero exactly when [256^n] divides the value. *)
Lemma low_digits_zero H n :
  0 <= H -> 0 <= n ->
  (forall k, 0 <= k < n -> (H / 256 ^ k) mod 256 = 0) <-> H mod 256 ^ n = 0.
Proof.
  intros HH Hn. revert n Hn.
  apply (natlike_ind (fun n =>
    (forall k, 0 <= k < n -> (H / 256 ^ k) mod 256 = 0)
    <-> H mod 256 ^ n = 0)).
  - split; [intros _; apply Z.mod_1_r | intros _ k Hk; lia].
  - intros n Hn IH. rewrite Z.pow_succ_r by lia.
    rewrite (Z.mul_comm 256), Z.rem_mul_r by (try apply Z.pow_nonzero; lia).
    assert (P : 0 < 256 ^ n) by (apply Z.pow_pos_nonneg; lia).
    pose proof (Z.mod_pos_bound H (256 ^ n) P) as B1.
    pose proof (Z.mod_pos_bound (H / 256 ^ n) 256 ltac:(lia)) as B2.
    split.
    + intros Hall.
      assert (H1 : H mod 256 ^ n = 0) by (apply IH; intros k Hk; apply Hall; lia).
      assert (H2 : (H / 256 ^ n) mod 256 = 0) by (apply Hall; lia).
      rewrite H1, H2. lia.
    + intros Hsum k Hk.
      assert (H1 : H mod 256 ^ n = 0) by nia.
      assert (H2 : (H / 256 ^ n) mod 256 = 0) by nia.
      destruct (Z.eq_dec k n) as [->|Hne]; [exact H2|].
      apply IH; [exact H1 | lia].
Qed.

(** The top [n] of 32 digits are zero exactly when the value is below
    [256^(32 - n)]. *)
Lemma high_digits_zero H n :
  0 <= H < 256 ^ 32 -> 0 <= n <= 32 ->
  (forall k, 0 <= k < n -> (H / 256 ^ (31 - k)) mod 256 = 0)
  <-> H < 256 ^ (32 - n).
Proof.
  intros HH [Hn0 Hn]. revert n Hn0 Hn.
  apply (natlike_ind (fun n => n <= 32 ->
    (forall k, 0 <= k < n -> (H / 256 ^ (31 - k)) mod 256 = 0)
    <-> H < 256 ^ (32 - n))).
  - intros _. split; [intros _; apply HH | intros _ k Hk; lia].
  - intros n Hn IH Hle. specialize (IH ltac:(lia)).
    replace (32 - Z.succ n) with (31 - n) by lia.
    assert (P : 0 < 256 ^ (31 - n)) by (apply Z.pow_pos_nonneg; lia).
    assert (E : 256 ^ (32 - n) = 256 * 256 ^ (31 - n)).
    { rewrite <- Z.pow_succ_r by lia. f_equal. lia. }
    split.
    + intros Hall.
      assert (H1 : H < 256 ^ (32 - n)) by (apply IH; intros k Hk; apply Hall; lia).
      assert (H2 : (H / 256 ^ (31 - n)) mod 256 = 0) by (apply Hall; lia).
      rewrite Z.mod_small in H2.
      * apply Z.div_small_iff in H2; lia.
      * split; [apply Z.div_pos; lia|].
        apply Z.div_lt_upper_bound; lia.
    + intros Hlt k Hk.
      destruct (Z.eq_dec k n) as [->|Hne].
      * rewrite Z.div_small by lia. reflexivity.
      * apply IH; [lia | lia].
Qed.

Lemma lor_shiftl_add a b n :
  0 <= n -> 0 <= b < 2 ^ n -> Z.lor (Z.shiftl a n) b = a * 2 ^ n + b.
Proof.
  intros Hn Hb.
  assert (Hland : Z.land (Z.shiftl a n) b = 0).
  { apply Z.bits_inj'. intros k Hk. rewrite Z.land_spec, Z.bits_0.
    destruct (Z.lt_ge_cases k n) as [Hlt|Hge].
    - rewrite Z.shiftl_spec_low by lia. reflexivity.
    - destruct (Z.eq_dec b 0) as [->|Hb0].
      + rewrite Z.bits_0. apply andb_false_r.
      + rewrite (Z.bits_above_log2 b k); [apply andb_false_r | lia |].
        apply Z.log2_lt_pow2; [lia|].
        apply Z.lt_le_trans with (2 ^ n); [lia|].
        apply Z.pow_le_mono_r; lia. }
  rewrite <- Z.lxor_lor by exact Hland.
  rewrite <- Z.add_nocarry_lxor by exact Hland.
  rewrite Z.shiftl_mul_pow2 by lia. reflexivity.
Qed.

(** The four bytes read at [src] spell the value, shifted down by [src]
    digits, modulo [2^32]. *)
Lemma candidate_value h src :
  0 <= src ->
  ntoh32_bytes (at_ h (src + 3)) (at_ h (src + 2)) (at_ h (src + 1))
    (at_ h src)
  = (hash_value h / 256 ^ src) mod 2 ^ 32.
Proof.
  intros Hs. rewrite !at_digit by lia.
  pose proof (hash_value_range h) as [HH _].
  assert (P : 0 < 256 ^ src) by (apply Z.pow_pos_nonneg; lia).
  set (X := hash_value h / 256 ^ src).
  assert (HX : 0 <= X) by (apply Z.div_pos; lia).
  assert (Hd : forall j, 0 <= j ->
            hash_value h / 256 ^ (src + j) = X / 256 ^ j).
  { intros j Hj. rewrite Z.pow_add_r by lia.
    rewrite <- Z.div_div by (try apply Z.pow_pos_nonneg; lia).
    reflexivity. }
  rewrite !Hd by lia. fold X.
  change (256 ^ 1) with 256. change (256 ^ 2) with (256 * 256).
  change (256 ^ 3) with (256 * 256 * 256).
  set (x0 := X mod 256). set (x1 := (X / 256) mod 256).
  set (x2 := (X / (256 * 256)) mod 256).
  set (x3 := (X / (256 * 256 * 256)) mod 256).
  assert (B0 : 0 <= x0 < 256) by (apply Z.mod_pos_bound; lia).
  assert (B1 : 0 <= x1 < 256) by (apply Z.mod_pos_bound; lia).
  assert (B2 : 0 <= x2 < 256) by (apply Z.mod_pos_bound; lia).
  assert (B3 : 0 <= x3 < 256) by (apply Z.mod_pos_bound; lia).
  assert (E : X mod 2 ^ 32 = x0 + 256 * (x1 + 256 * (x2 + 256 * x3))).
  { change (2 ^ 32) with (256 * (256 * (256 * 256))).
    rewrite Z.rem_mul_r by lia. rewrite Z.rem_mul_r by lia.
    rewrite Z.rem_mul_r by lia. rewrite !Z.div_div by lia.
    reflexivity. }
  rewrite E. unfold ntoh32_bytes.
  rewrite (lor_shiftl_add x1 x0 8) by lia.
  rewrite (lor_shiftl_add x2 _ 16) by lia.
  rewrite (lor_shiftl_add x3 _ 24) by lia.
  lia.
Qed.
Lemma le_target_split H T K :
  0 < K -> 0 <= H ->
  (H <= T * K <-> H / K < T \/ (H / K = T /\ H mod K = 0)).
Proof.
  intros HK HH.
  pose proof (Z.div_mod H K ltac:(lia)) as E.
  pose proof (Z.mod_pos_bound H K HK) as B.
  set (C := H / K) in *. set (r := H mod K) in *.
  split.
  - intros Hle. destruct (Z.lt_trichotomy C T) as [Hlt|[Heq|Hgt]].
    + left. exact Hlt.
    + right. split; [exact Heq|]. subst T. nia.
    + exfalso. nia.
  - intros [Hlt|[Heq Hr]]; nia.
Qed.

Lemma pow256 n : 0 <= n -> 256 ^ n = 2 ^ (8 * n).
Proof. intros Hn. rewrite Z.pow_mul_r by lia. reflexivity. Qed.

(** *** [compatible] as a comparison of numbers *)

(** A 32-byte hash is compatible with a target exactly when the target is
    well formed (at most 224 zeros, top mantissa bit set) and the hash, read
    as a number, does not exceed [target_value]. *)
Lemma compatible_spec t h :
  is_uint32 t -> length h = 32%nat ->
  (compatible t h = true
   <-> zeros8 t <= 224 /\ mantissa_normal t
       /\ hash_value h <= target_value t).
Proof.
  intros Ht Hlen.
  pose proof (zeros8_range t Ht) as Hz.
  pose proof (hash_value_range h) as HH. rewrite Hlen in HH.
  change (Z.of_nat 32) with 32 in HH.
  unfold compatible. cbv zeta. change (256 - 4 * 8) with 224.
  destruct (Z.ltb_spec 224 (zeros8 t)) as [Hz'|Hz'].
  { split; [discriminate | intros (H1 & _); lia]. }
  destruct (Z.eqb_spec (Z.land (bits24 t) 8388608) 0) as [Hb|Hb].
  { split; [discriminate | intros (_ & H2 & _); contradiction]. }
  pose proof (bits24_range t Ht Hb) as Hbr.
  assert (Hshift : Z.land (zeros8 t) 7 = zeros8 t mod 8).
  { change 7 with (Z.ones 3). apply Z.land_ones. lia. }
  rewrite Hshift. unfold target_value.
  pose proof (Z.div_mod (zeros8 t) 8 ltac:(lia)) as Ez.
  pose proof (Z.mod_pos_bound (zeros8 t) 8 ltac:(lia)) as Bsh.
  set (z := zeros8 t) in *. set (b := bits24 t) in *.
  set (zb := z / 8) in *. set (sh := z mod 8) in *.
  assert (Hzb : 0 <= zb <= 28) by lia.
  assert (P1 : 0 < 2 ^ (8 - sh)) by (apply Z.pow_pos_nonneg; lia).
  assert (P2 : 2 ^ (8 - sh) <= 2 ^ 8) by (apply Z.pow_le_mono_r; lia).
  assert (Hthr : wrap32 (Z.shiftl b (8 - sh)) = b * 2 ^ (8 - sh)).
  { unfold wrap32. rewrite Z.shiftl_mul_pow2 by lia.
    apply Z.mod_small. change (2 ^ 8) with 256 in P2. nia. }
  rewrite Hthr. set (T := b * 2 ^ (8 - sh)) in *.
  assert (HT : 0 < T < 2 ^ 32) by (change (2 ^ 8) with 256 in P2; nia).
  set (K := 256 ^ (28 - zb)).
  assert (HK : 0 < K) by (apply Z.pow_pos_nonneg; lia).
  assert (Etv : b * 2 ^ (232 - z) = T * K).
  { unfold T, K. rewrite pow256 by lia.
    replace (232 - z) with ((8 - sh) + 8 * (28 - zb)) by lia.
    rewrite Z.pow_add_r by lia. ring. }
  rewrite Etv.
  assert (Epow : 256 ^ (32 - zb) = 2 ^ 32 * K).
  { unfold K. replace (32 - zb) with (4 + (28 - zb)) by lia.
    rewrite Z.pow_add_r by lia. reflexivity. }
  assert (Htop : all_zero h (fun i => 31 - i) zb = true
                 <-> hash_value h < 2 ^ 32 * K).
  { rewrite all_zero_spec, <- Epow.
    rewrite <- (high_digits_zero (hash_value h) zb) by lia.
    split; intros H k Hk; specialize (H k Hk).
    - rewrite <- at_digit by lia. exact H.
    - rewrite at_digit by lia. exact H. }
  assert (Hlow : all_zero h (fun i => i) (28 - zb) = true
                 <-> hash_value h mod K = 0).
  { rewrite all_zero_spec. unfold K.
    rewrite <- (low_digits_zero (hash_value h) (28 - zb)) by lia.
    split; intros H k Hk; specialize (H k Hk).
    - rewrite <- at_digit by lia. exact H.
    - rewrite at_digit by lia. exact H. }
  destruct (all_zero h (fun i => 31 - i) zb) eqn:Etop; cbn [negb].
  - assert (Hlt : hash_value h < 2 ^ 32 * K) by (apply Htop; reflexivity).
    rewrite candidate_value by lia. fold K.
    assert (HC : 0 <= hash_value h / K < 2 ^ 32).
    { split; [apply Z.div_pos; lia|].
      apply Z.div_lt_upper_bound; lia. }
    rewrite (Z.mod_small (hash_value h / K)) by exact HC.
    rewrite (le_target_split (hash_value h) T K) by lia.
    destruct (Z.ltb_spec T (hash_value h / K)) as [H1|H1].
    { split; [discriminate | intros (_ & _ & [H|[H _]]); lia]. }
    destruct (Z.ltb_spec (hash_value h / K) T) as [H2|H2].
    { split; [intros _|reflexivity].
      split; [lia|]. split; [exact Hb|]. left. exact H2. }
    rewrite Hlow. split.
    + intros Hr. split; [lia|]. split; [exact Hb|]. right. split; [lia|exact Hr].
    + intros (_ & _ & [H|[_ H]]); [lia | exact H].
  - split; [discriminate|]. intros (_ & _ & Hle). exfalso.
    assert (Hlt : hash_value h < 2 ^ 32 * K) by nia.
    apply Htop in Hlt. discriminate.
Qed.


(** *** Monotonicity of [compatible] in the difficulty *)


(** The all-zero hash, and three targets: 10 zeros and 20 zeros with
    mantissa [0x800000], and 30 zeros with mantissa [0xFFFFFF]. *)
Definition zero_hash : Hash := repeat x00 32.
Definition target_10 : Z := 176160768.
Definition target_20 : Z := 343932928.



(** *** Further properties of [compatible] and [difficulty] *)

(** X1. [TargetV1::compatible] compares numbers: a 32-byte hash meets a target
    exactly when the target has at most 224 zeros, its mantissa has the top
    bit set, and the hash, read as a 256-bit number with [hash[31]] its
    most significant byte, is at most [bits24 * 2^(232 - zeros8)]. *)
Theorem compatible_iff_hash_below_target t h :
  is_uint32 t -> length h = 32%nat ->
  (compatible t h = true
   <-> zeros8 t <= 224 /\ mantissa_normal t
       /\ hash_value h <= bits24 t * 2 ^ (232 - zeros8 t)).
Proof. exact (compatible_spec t h). Qed.

Lemma compatible_iff_hash_below_target_witness :
  compatible target_10 zero_hash = true
  <-> zeros8 target_10 <= 224 /\ mantissa_normal target_10
      /\ hash_value zero_hash <= bits24 target_10 * 2 ^ (232 - zeros8 target_10).
Proof.
  apply (compatible_iff_hash_below_target target_10 zero_hash).
  - unfold is_uint32, target_10. lia.
  - reflexivity.
Defined.

(** X2. [TargetV1::compatible] is monotone in the hash: a hash that spells a
    number no larger than one that meets the target meets it too. *)
Theorem compatible_monotone_in_hash t h h' :
  is_uint32 t -> length h = 32%nat -> length h' = 32%nat ->
  hash_value h' <= hash_value h ->
  compatible t h = true -> compatible t h' = true.
Proof.
  intros Ht Hl Hl' Hle Hc.
  apply (compatible_spec t h Ht Hl) in Hc. destruct Hc as (Hz & Hn & Hv).
  apply (compatible_spec t h' Ht Hl').
  split; [exact Hz|]. split; [exact Hn | lia].
Qed.

(** A hash with [hash[0] = 1] and the other bytes zero. *)
Definition one_hash : Hash := x01 :: repeat x00 31.

Lemma compatible_monotone_in_hash_witness :
  compatible target_10 zero_hash = true.
Proof.
  apply (compatible_monotone_in_hash target_10 one_hash zero_hash).
  - unfold is_uint32, target_10. lia.
  - reflexivity.
  - reflexivity.
  - vm_compute. discriminate.
  - vm_compute. reflexivity.
Defined.

Lemma target_of_fields t :
  is_uint32 t -> t = zeros8 t * 2 ^ 24 + bits24 t.
Proof.
  intros Ht. unfold zeros8. rewrite bits24_mod, Z.shiftr_div_pow2 by lia.
  pose proof (Z.div_mod t (2 ^ 24) ltac:(lia)). lia.
Qed.

Lemma leb_of_order t1 t2 :
  is_uint32 t1 -> mantissa_normal t1 ->
  is_uint32 t2 -> mantissa_normal t2 ->
  zeros8 t1 < zeros8 t2
  \/ (zeros8 t1 = zeros8 t2 /\ bits24 t2 <= bits24 t1) ->
  PrimFloat.leb (difficulty t1) (difficulty t2) = true.
Proof.
  intros Ht1 Hn1 Ht2 Hn2 Hord.
  destruct (Z.eq_dec t1 t2) as [<-|Hne].
  - destruct (difficulty_repr t1 Ht1 Hn1) as (m & e & E & _).
    rewrite FloatAxioms.leb_spec, E. unfold SFleb, SFcompare.
    rewrite Z.compare_refl.
    change (Pos.compare_cont Eq m m) with (Pos.compare m m).
    rewrite Pos.compare_refl. reflexivity.
  - pose proof (bits24_range t1 Ht1 Hn1) as Hb1.
    pose proof (bits24_range t2 Ht2 Hn2) as Hb2.
    assert (Hstrict : zeros8 t1 < zeros8 t2
                      \/ (zeros8 t1 = zeros8 t2 /\ bits24 t2 < bits24 t1)).
    { destruct Hord as [H|[H1 H2]]; [left; exact H|]. right.
      split; [exact H1|].
      destruct (Z.eq_dec (bits24 t2) (bits24 t1)) as [Heq|]; [|lia].
      exfalso. apply Hne.
      rewrite (target_of_fields t1 Ht1), (target_of_fields t2 Ht2). lia. }
    clear Hord Hne.
    destruct (difficulty_repr t1 Ht1 Hn1) as (m1 & e1 & E1 & R1).
    destruct (difficulty_repr t2 Ht2 Hn2) as (m2 & e2 & E2 & R2).
    rewrite FloatAxioms.leb_spec, E1, E2. unfold SFleb, SFcompare.
    change (Pos.compare_cont Eq m1 m2) with (Pos.compare m1 m2).
    assert (Hcmp : e1 < e2 \/ (e1 = e2 /\ Zpos m1 < Zpos m2)).
    { destruct R1 as [(B1 & M1 & X1)|(B1 & X1 & Q1 & M1)];
        destruct R2 as [(B2 & M2 & X2)|(B2 & X2 & Q2 & M2)]; subst e1 e2.
      - left. lia.
      - destruct Hstrict as [H|[H1 H2]]; [|lia].
        destruct (Z.eq_dec (zeros8 t1 + 1) (zeros8 t2));
          [right; split; lia | left; lia].
      - left. lia.
      - destruct Hstrict as [H|[H1 H2]]; [left; lia|].
        right. split; [lia|].
        set (b1 := bits24 t1) in *. set (b2 := bits24 t2) in *.
        pose proof (Z.mul_div_le (2 ^ 76) b1 ltac:(lia)) as L1.
        pose proof (Z.mul_succ_div_gt (2 ^ 76) b2 ltac:(lia)) as G2.
        set (q1 := 2 ^ 76 / b1) in *. set (q2 := 2 ^ 76 / b2) in *.
        assert (Hq : q1 + 1 < q2); [|lia].
        destruct (Z.lt_ge_cases (q1 + 1) q2) as [Hok|Hbad]; [exact Hok|].
        exfalso.
        assert (H3 : b2 * Z.succ q2 <= (b1 - 1) * (q1 + 2)) by nia.
        nia. }
    destruct Hcmp as [Hlt|[Heq Hlt]].
    + apply Z.compare_lt_iff in Hlt. rewrite Hlt. reflexivity.
    + subst e2. rewrite Z.compare_refl.
      assert (Hp : (m1 ?= m2)%positive = Lt) by (apply Pos.compare_lt_iff; lia).
      rewrite Hp. reflexivity.
Qed.

(** X3. Among targets whose mantissa has the top bit set,
    [t1.difficulty() <= t2.difficulty()] holds exactly when [t1] has fewer
    zeros than [t2], or as many zeros and a mantissa at least as large: the
    rounding of the doubles loses nothing of the order. *)
Theorem difficulty_order t1 t2 :
  is_uint32 t1 -> mantissa_normal t1 ->
  is_uint32 t2 -> mantissa_normal t2 ->
  (PrimFloat.leb (difficulty t1) (difficulty t2) = true
   <-> zeros8 t1 < zeros8 t2
       \/ (zeros8 t1 = zeros8 t2 /\ bits24 t2 <= bits24 t1)).
Proof.
  intros Ht1 Hn1 Ht2 Hn2. split.
  - apply difficulty_leb; assumption.
  - apply leb_of_order; assumption.
Qed.

Lemma difficulty_order_witness :
  PrimFloat.leb (difficulty target_10) (difficulty target_20) = true
  <-> zeros8 target_10 < zeros8 target_20
      \/ (zeros8 target_10 = zeros8 target_20
          /\ bits24 target_20 <= bits24 target_10).
Proof.
  apply (difficulty_order target_10 target_20).
  - unfold is_uint32, target_10. lia.
  - unfold mantissa_normal. vm_compute. discriminate.
  - unfold is_uint32, target_20. lia.
  - unfold mantissa_normal. vm_compute. discriminate.
Defined.

(** X4. Two targets whose mantissa has the top bit set and which have the same
    difficulty are the same target. *)
Theorem difficulty_injective t1 t2 :
  is_uint32 t1 -> mantissa_normal t1 ->
  is_uint32 t2 -> mantissa_normal t2 ->
  difficulty t1 = difficulty t2 -> t1 = t2.
Proof.
  intros Ht1 Hn1 Ht2 Hn2 Heq.
  assert (H12 : PrimFloat.leb (difficulty t1) (difficulty t2) = true).
  { rewrite <- Heq. apply leb_of_order; try assumption. right. split; lia. }
  assert (H21 : PrimFloat.leb (difficulty t2) (difficulty t1) = true).
  { rewrite Heq. apply leb_of_order; try assumption. right. split; lia. }
  apply difficulty_leb in H12; try assumption.
  apply difficulty_leb in H21; try assumption.
  rewrite (target_of_fields t1 Ht1), (target_of_fields t2 Ht2). lia.
Qed.

Lemma difficulty_injective_witness : target_10 = target_10.
Proof.
  apply (difficulty_injective target_10 target_10).
  - unfold is_uint32, target_10. lia.
  - unfold mantissa_normal. vm_compute. discriminate.
  - unfold is_uint32, target_10. lia.
  - unfold mantissa_normal. vm_compute. discriminate.
  - reflexivity.
Defined.

End TargetV1Props.

(** ** Version-2 targets: properties *)

Module TargetV2Props.
Import TargetV2.

Lemma zeros10_range t : TargetV1.is_uint32 t -> 0 <= zeros10 t <= 1023.
Proof.
  unfold TargetV1.is_uint32, zeros10. intros Ht.
  rewrite Z.shiftr_div_pow2 by lia. split.
  - apply Z.div_pos; lia.
  - assert (t / 2 ^ 22 < 2 ^ 10); [|lia].
    apply Z.div_lt_upper_bound; lia.
Qed.

Lemma bits22_range t : 0 <= bits22 t < 2 ^ 22.
Proof.
  unfold bits22. rewrite Z.land_comm.
  change 4194303 with (Z.ones 22). rewrite Z.land_ones by lia.
  apply Z.mod_pos_bound. lia.
Qed.

Lemma bits32_value t : wrap32 (Z.shiftl (bits22 t) 10) = bits22 t * 2 ^ 10.
Proof.
  pose proof (bits22_range t) as H. unfold wrap32.
  rewrite Z.shiftl_mul_pow2 by lia. apply Z.mod_small. lia.
Qed.

(** The order of targets by hardness: more zeros, or as many zeros and a
    smaller mantissa. *)
Definition easier_or_equal (t1 t2 : Z) : Prop :=
  zeros10 t1 < zeros10 t2
  \/ (zeros10 t1 = zeros10 t2 /\ bits22 t2 <= bits22 t1).

Lemma compatible_mono t1 t2 d :
  easier_or_equal t1 t2 ->
  compatible t2 d = Some true -> compatible t1 d = Some true.
Proof.
  unfold compatible. rewrite !bits32_value. intros Hord.
  destruct (0 <? negExp d); cbn [negb]; [|discriminate].
  destruct (Z.ltb_spec (negExp d - 1) (zeros10 t2)) as [H1|H1];
    [discriminate|].
  destruct (Z.ltb_spec (zeros10 t2) (negExp d - 1)) as [H2|H2].
  - intros _. destruct Hord as [Hlt|[Heq _]].
    + destruct (Z.ltb_spec (negExp d - 1) (zeros10 t1)); [lia|].
      destruct (Z.ltb_spec (zeros10 t1) (negExp d - 1)); [reflexivity | lia].
    + rewrite Heq.
      destruct (Z.ltb_spec (negExp d - 1) (zeros10 t2)); [lia|].
      destruct (Z.ltb_spec (zeros10 t2) (negExp d - 1)); [reflexivity | lia].
  - intros Hd. injection Hd as Hd. apply Z.ltb_lt in Hd.
    destruct Hord as [Hlt|[Heq Hb]].
    + destruct (Z.ltb_spec (negExp d - 1) (zeros10 t1)); [lia|].
      destruct (Z.ltb_spec (zeros10 t1) (negExp d - 1)); [reflexivity | lia].
    + rewrite Heq.
      destruct (Z.ltb_spec (negExp d - 1) (zeros10 t2)); [lia|].
      destruct (Z.ltb_spec (zeros10 t2) (negExp d - 1)); [lia|].
      f_equal. apply Z.ltb_lt. lia.
Qed.

(** X5. [TargetV2::compatible] is monotone in the target: a digest that meets
    a target meets every target that has fewer zeros, or as many zeros and
    a mantissa at least as large. *)
Theorem compatible_monotone_in_target t1 t2 d :
  zeros10 t1 < zeros10 t2
  \/ (zeros10 t1 = zeros10 t2 /\ bits22 t2 <= bits22 t1) ->
  compatible t2 d = Some true -> compatible t1 d = Some true.
Proof. exact (compatible_mono t1 t2 d). Qed.

Lemma compatible_monotone_in_target_witness :
  compatible initialv2 (mk_digest 44 3000000000) = Some true.
Proof.
  apply (compatible_monotone_in_target initialv2 initial
           (mk_digest 44 3000000000)).
  - left. vm_compute. reflexivity.
  - vm_compute. reflexivity.
Defined.

(** X6. For a target with a normal mantissa and a digest whose 32-bit [data]
    has its top bit set, [TargetV2::compatible] compares two numbers: the
    digest [data * 2^-(negExp + 31)] is below the target
    [bits22 * 2^-(zeros10 + 22)].  A digest with [negExp <= 0] fails the
    assertion. *)
Theorem compatible_compares_values t d :
  mantissa_normal t -> 0 <= zeros10 t ->
  2 ^ 31 <= data d < 2 ^ 32 ->
  (negExp d <= 0 -> compatible t d = None)
  /\ (0 < negExp d ->
      compatible t d
      = Some (data d * 2 ^ (zeros10 t + 22) <? bits22 t * 2 ^ (negExp d + 31))).
Proof.
  intros Hn Hz Hd. unfold mantissa_normal in Hn.
  pose proof (bits22_range t) as Hb.
  unfold compatible. rewrite bits32_value. split.
  - intros Hneg. destruct (Z.ltb_spec 0 (negExp d)); [lia | reflexivity].
  - intros Hpos. destruct (Z.ltb_spec 0 (negExp d)); [|lia]. cbn [negb].
    set (zT := zeros10 t) in *. set (zD := negExp d - 1).
    replace (negExp d + 31) with (zD + 32) by (unfold zD; lia).
    assert (HzD : 0 <= zD) by (unfold zD; lia).
    rewrite !Z.pow_add_r by lia.
    assert (PT : 0 < 2 ^ zT) by (apply Z.pow_pos_nonneg; lia).
    assert (PD : 0 < 2 ^ zD) by (apply Z.pow_pos_nonneg; lia).
    change (2 ^ 22) with 4194304. change (2 ^ 32) with 4294967296.
    change (2 ^ 10) with 1024.
    change (2 ^ 21) with 2097152 in Hn. change (2 ^ 22) with 4194304 in Hb.
    change (2 ^ 31) with 2147483648 in Hd.
    change (2 ^ 32) with 4294967296 in Hd.
    destruct (Z.ltb_spec zD zT) as [H1|H1].
    + f_equal. symmetry. apply Z.ltb_ge.
      assert (E : 2 ^ zT = 2 ^ (zT - zD) * 2 ^ zD).
      { rewrite <- Z.pow_add_r by lia. f_equal. lia. }
      assert (Q : 2 ^ 1 <= 2 ^ (zT - zD)) by (apply Z.pow_le_mono_r; lia).
      change (2 ^ 1) with 2 in Q. rewrite E. nia.
    + destruct (Z.ltb_spec zT zD) as [H2|H2].
      * f_equal. symmetry. apply Z.ltb_lt.
        assert (E : 2 ^ zD = 2 ^ (zD - zT) * 2 ^ zT).
        { rewrite <- Z.pow_add_r by lia. f_equal. lia. }
        assert (Q : 2 ^ 1 <= 2 ^ (zD - zT)) by (apply Z.pow_le_mono_r; lia).
        change (2 ^ 1) with 2 in Q. rewrite E. nia.
      * assert (zT = zD) by lia. subst zT. f_equal.
        replace zD with (zeros10 t) in * by lia.
        destruct (Z.ltb_spec (data d) (bits22 t * 1024));
          symmetry; [apply Z.ltb_lt | apply Z.ltb_ge]; nia.
Qed.

Lemma compatible_compares_values_witness :
  compatible initial (mk_digest 44 2147483648)
  = Some (2147483648 * 2 ^ (43 + 22) <? 4194303 * 2 ^ (44 + 31)).
Proof.
  apply (proj2 (compatible_compares_values initial (mk_digest 44 2147483648)
                  ltac:(vm_compute; discriminate)
                  ltac:(vm_compute; discriminate)
                  ltac:(simpl; lia))).
  reflexivity.
Defined.


(** *** The double [difficulty] returns *)

(** The double of a 22-digit integer. *)
Lemma of_uint63_normal22 b :
  2 ^ 21 <= b < 2 ^ 22 ->
  Prim2SF (of_uint63 (of_Z b)) = S754_finite false (Z.to_pos (b * 2 ^ 31)) (-31).
Proof.
  intros Hb. rewrite of_uint63_spec, of_Z_spec.
  rewrite Z.mod_small by (unfold Uint63.wB, Uint63.size; simpl; lia).
  destruct b as [|pb|pb]; try lia.
  unfold binary_normalize, binary_round.
  rewrite (TargetV1Props.digits_of_range pb 22) by (simpl; lia).
  change (fexp prec emax (22 + 0)) with (-31).
  unfold shl_align. change (-31 - 0) with (Zneg 31).
  destruct (TargetV1Props.round_aux_normal (Pos.iter xO pb 31) (-31) loc_Exact)
    as (m' & E & _ & Hex).
  - rewrite TargetV1Props.iter_xO_shift. lia.
  - intros H; contradiction.
  - lia.
  - rewrite E, (Hex eq_refl). f_equal.
    apply Pos2Z.inj. rewrite TargetV1Props.iter_xO_shift, Z2Pos.id by lia.
    reflexivity.
Qed.

(** [1 / b] for a 22-digit [b] other than [2^21]: the quotient [2^74 / b]
    rounded in the last place. *)
Lemma div_one_normal22 b :
  2 ^ 21 < b < 2 ^ 22 ->
  exists m,
    Prim2SF (1 / of_uint63 (of_Z b)) = S754_finite false m (-74)
    /\ 2 ^ 74 / b <= Zpos m <= 2 ^ 74 / b + 1
    /\ 2 ^ 52 < Zpos m < 2 ^ 53.
Proof.
  intros Hb. rewrite FloatAxioms.div_spec, of_uint63_normal22 by lia.
  change (Prim2SF 1) with (S754_finite false 4503599627370496 (-52)).
  unfold SF64div, SFdiv, SFdiv_core_binary.
  assert (Hm2 : Zpos (Z.to_pos (b * 2 ^ 31)) = b * 2 ^ 31)
    by (apply Z2Pos.id; lia).
  assert (D1 : Zdigits2 (Zpos 4503599627370496) = 53) by reflexivity.
  assert (D2 : Zdigits2 (Zpos (Z.to_pos (b * 2 ^ 31))) = 53).
  { apply (TargetV1Props.digits_of_range _ 53). rewrite Hm2. lia. }
  rewrite D1, D2. cbv zeta.
  change (Z.min (fexp prec emax (53 + -52 - (53 + -31))) (-52 - -31))
    with (-74).
  change (-52 - -31 - -74) with 53.
  change (Z.shiftl 4503599627370496 53) with (2 ^ 105).
  rewrite Hm2.
  assert (Hq : 2 ^ 105 / (b * 2 ^ 31) = 2 ^ 74 / b).
  { change (2 ^ 105) with (2 ^ 74 * 2 ^ 31).
    apply Z.div_mul_cancel_r; lia. }
  assert (Hqlo : 2 ^ 52 < 2 ^ 74 / b).
  { assert (2 ^ 74 / (2 ^ 22 - 1) <= 2 ^ 74 / b)
      by (apply Z.div_le_compat_l; lia).
    assert (2 ^ 52 < 2 ^ 74 / (2 ^ 22 - 1)) by (vm_compute; reflexivity).
    lia. }
  assert (Hqhi : 2 ^ 74 / b + 1 < 2 ^ 53 - 1).
  { assert (2 ^ 74 / b <= 2 ^ 74 / (2 ^ 21 + 1))
      by (apply Z.div_le_compat_l; lia).
    assert (2 ^ 74 / (2 ^ 21 + 1) < 2 ^ 53 - 2) by (vm_compute; reflexivity).
    lia. }
  remember (2 ^ 74 / b) as Q eqn:EQ. clear EQ.
  unfold Z.div in Hq.
  destruct (Z.div_eucl (2 ^ 105) (b * 2 ^ 31)) as [q r].
  subst q.
  destruct Q as [|pq|pq]; try lia.
  change (xorb false false) with false.
  destruct (TargetV1Props.round_aux_normal pq (-74)
              (new_location (b * 2 ^ 31) r))
    as (m' & E & Hm' & _); try lia.
  exists m'. split; [exact E|]. split; [exact Hm' | lia].
Qed.

(** For a target with a normal mantissa [b] and [z <= 1022] zeros,
    [difficulty] is the finite double [m * 2^e] where either [b = 2^21],
    [m = 2^52] and [e = z - 51], or [b > 2^21], [e = z - 52] and [m] is
    [2^74 / b] rounded in the last place.  (With 1023 zeros and the
    mantissa [2^21] the result would be [2^1024], which is not a finite
    double.) *)
Lemma v2_difficulty_repr t :
  TargetV1.is_uint32 t -> mantissa_normal t -> zeros10 t <= 1022 ->
  exists m e,
    Prim2SF (difficulty t) = S754_finite false m e
    /\ ((bits22 t = 2 ^ 21 /\ Zpos m = 2 ^ 52 /\ e = zeros10 t - 51)
        \/ (2 ^ 21 < bits22 t /\ e = zeros10 t - 52
            /\ 2 ^ 74 / bits22 t <= Zpos m <= 2 ^ 74 / bits22 t + 1
            /\ 2 ^ 52 < Zpos m < 2 ^ 53)).
Proof.
  intros Ht Hn Hmax. unfold mantissa_normal in Hn.
  pose proof (bits22_range t) as Hb.
  pose proof (zeros10_range t Ht) as Hz. unfold difficulty.
  destruct (Z.eq_dec (bits22 t) (2 ^ 21)) as [Heq|Hne].
  - rewrite Heq. exists 4503599627370496%positive, (zeros10 t - 51).
    split; [|left; repeat split; reflexivity || exact Heq].
    replace (zeros10 t - 51) with (-73 + (zeros10 t + 22)) by lia.
    apply TargetV1Props.ldexp_normal; try lia. reflexivity.
  - destruct (div_one_normal22 (bits22 t)) as (m & E & Hq & Hm); [lia|].
    exists m, (zeros10 t - 52). split; [|right; repeat split; lia].
    replace (zeros10 t - 52) with (-74 + (zeros10 t + 22)) by lia.
    apply TargetV1Props.ldexp_normal; try lia. exact E.
Qed.

(** The order of two such doubles is the order of [(zeros, -mantissa)]. *)
Lemma v2_difficulty_leb t1 t2 :
  TargetV1.is_uint32 t1 -> mantissa_normal t1 -> zeros10 t1 <= 1022 ->
  TargetV1.is_uint32 t2 -> mantissa_normal t2 -> zeros10 t2 <= 1022 ->
  PrimFloat.leb (difficulty t1) (difficulty t2) = true ->
  easier_or_equal t1 t2.
Proof.
  intros Ht1 Hn1 Hm1 Ht2 Hn2 Hm2 Hle. unfold easier_or_equal.
  pose proof (bits22_range t1) as Hb1. pose proof (bits22_range t2) as Hb2.
  unfold mantissa_normal in Hn1, Hn2.
  destruct (v2_difficulty_repr t1 Ht1 Hn1 Hm1) as (m1 & e1 & E1 & R1).
  destruct (v2_difficulty_repr t2 Ht2 Hn2 Hm2) as (m2 & e2 & E2 & R2).
  rewrite FloatAxioms.leb_spec, E1, E2 in Hle. unfold SFleb, SFcompare in Hle.
  change (Pos.compare_cont Eq m1 m2) with (Pos.compare m1 m2) in Hle.
  assert (Hcmp : e1 < e2 \/ (e1 = e2 /\ Zpos m1 <= Zpos m2)).
  { destruct (Z.compare_spec e1 e2) as [He|He|He].
    - right. split; [exact He|].
      destruct (Pos.compare_spec m1 m2); try discriminate; lia.
    - left. exact He.
    - discriminate. }
  clear Hle E1 E2.
  destruct R1 as [(B1 & M1 & X1)|(B1 & X1 & Q1 & M1)];
    destruct R2 as [(B2 & M2 & X2)|(B2 & X2 & Q2 & M2)]; subst e1 e2.
  - lia.
  - lia.
  - destruct Hcmp as [H|[H1 H2]]; lia.
  - destruct Hcmp as [H|[H1 H2]]; [lia|].
    right. split; [lia|].
    destruct (Z.le_gt_cases (bits22 t2) (bits22 t1)) as [Hok|Hbad];
      [exact Hok | exfalso].
    set (b1 := bits22 t1) in *. set (b2 := bits22 t2) in *.
    pose proof (Z.mul_div_le (2 ^ 74) b2 ltac:(lia)) as L2.
    pose proof (Z.mul_succ_div_gt (2 ^ 74) b1 ltac:(lia)) as G1.
    set (q1 := 2 ^ 74 / b1) in *. set (q2 := 2 ^ 74 / b2) in *.
    assert (Hq : q1 <= q2 + 1) by lia.
    assert (H3 : b1 * Z.succ q1 <= (b2 - 1) * (q2 + 2)) by nia.
    nia.
Qed.

(** X7. [TargetV2::compatible] is monotone in the difficulty among targets
    with a normal mantissa and at most 1022 zeros: if
    [t1.difficulty() <= t2.difficulty()] as doubles and a digest meets
    [t2], it meets [t1]. *)
Theorem v2_compatible_monotone_in_difficulty t1 t2 d :
  TargetV1.is_uint32 t1 -> mantissa_normal t1 -> zeros10 t1 <= 1022 ->
  TargetV1.is_uint32 t2 -> mantissa_normal t2 -> zeros10 t2 <= 1022 ->
  PrimFloat.leb (difficulty t1) (difficulty t2) = true ->
  compatible t2 d = Some true -> compatible t1 d = Some true.
Proof.
  intros Ht1 Hn1 Hm1 Ht2 Hn2 Hm2 Hle.
  apply compatible_mono.
  apply v2_difficulty_leb; assumption.
Qed.

Lemma v2_compatible_monotone_in_difficulty_witness :
  compatible initialv2 (mk_digest 44 3000000000) = Some true.
Proof.
  apply (v2_compatible_monotone_in_difficulty initialv2 initial
           (mk_digest 44 3000000000)).
  - unfold TargetV1.is_uint32. vm_compute. split; [discriminate | reflexivity].
  - vm_compute. discriminate.
  - vm_compute. discriminate.
  - unfold TargetV1.is_uint32. vm_compute. split; [discriminate | reflexivity].
  - vm_compute. discriminate.
  - vm_compute. discriminate.
  - vm_compute. reflexivity.
  - vm_compute. reflexivity.
Defined.

End TargetV2Props.

(** ** Mempool notifications ([Eventloop::handle_event(mempool::Log&&)]) *)

Module MempoolNotify.
Import Eventloop.

Section WithTransactionId.

(** [TransactionId] and its [operator<] ([mempool/order_key.hpp] and the
    transaction headers are outside this file's sources). *)
Variable TransactionId : Type.
Variable txid_ltb : TransactionId -> TransactionId -> bool.

(** [mempool::Entry], a pair: [first] is the id; of [second] the handler
    reads [transactionHeight]. *)
Record Entry : Type :=
  mk_entry { first : TransactionId; transactionHeight : Z }.

(** [mempool::Log]: a vector of actions, of which the handler reads the
    [mempool::Put] ones. *)
Inductive Action : Type :=
| Put (entry : Entry)
| Erase (id : TransactionId).

(** One subscription of [mempoolSubscriptions]: the [transactionHeight] of
    its key and the subscribed connection; the map is walked from
    [cbegin()] in key order. *)
Definition Subscription : Type := (Z * Z)%type.

(** The loop that collects the [Put] entries of the log. *)
Fixpoint put_entries (log : list Action) : list Entry :=
  match log with
  | [] => []
  | Put e :: log' => e :: put_entries log'
  | Erase _ :: log' => put_entries log'
  end.

(** The comparator handed to [std::sort]. *)
Definition entry_less (e1 e2 : Entry) : bool :=
  if transactionHeight e1 =? transactionHeight e2
  then txid_ltb (first e1) (first e2)
  else transactionHeight e1 <? transactionHeight e2.

(** [std::sort(entries.begin(), entries.end(), entry_less)], as insertion
    in order. *)
Fixpoint insert_sorted (e : Entry) (l : list Entry) : list Entry :=
  match l with
  | [] => [e]
  | x :: l' => if entry_less e x then e :: x :: l' else x :: insert_sorted e l'
  end.

Fixpoint sort_entries (l : list Entry) : list Entry :=
  match l with
  | [] => []
  | e :: l' => insert_sorted e (sort_entries l')
  end.

(** The inner [while]: with [eiter] at index [i] on an entry of height [h],
    every subscription from [miter] on whose height is not above [h] gets
    the bound [i]; the result is the bounds pushed and the subscriptions
    left ([[]] is [miter == cend()], the [goto finished]). *)
Fixpoint drain (i : nat) (h : Z) (subs : list Subscription)
  : list (nat * Z) * list Subscription :=
  match subs with
  | [] => ([], [])
  | m :: rest =>
      if negb (h <? m.1)
      then let '(bs, remaining) := drain i h rest in ((i, m.2) :: bs, remaining)
      else ([], subs)
  end.

(** The outer [while] over the entries from index [i] on, and the [while]
    after it that gives the remaining subscriptions the bound
    [entries.end()]. *)
Fixpoint bounds_from (i : nat) (entries : list Entry)
    (subs : list Subscription) : list (nat * Z) :=
  match entries with
  | [] => List.map (fun m : Subscription => (i, m.2)) subs
  | e :: entries' =>
      let '(bs, remaining) := drain i (transactionHeight e) subs in
      match remaining with
      | [] => bs
      | _ :: _ => bs ++ bounds_from (S i) entries' remaining
      end
  end.

(** [bounds], guarded by [mempoolSubscriptions.size() > 0]. *)
Definition subscription_bounds (entries : list Entry)
    (subs : list Subscription) : list (nat * Z) :=
  match subs with
  | [] => []
  | _ :: _ => bounds_from 0 entries subs
  end.

(** What is sent: to each connection of [bounds], in order, the entries of
    [TxnotifyMsg::direct_send(entries.begin(), end)]. *)
Definition notifications (log : list Action) (subs : list Subscription)
  : list (Z * list Entry) :=
  let entries := sort_entries (put_entries log) in
  List.map (fun b : nat * Z => (b.2, List.firstn b.1 entries))
    (subscription_bounds entries subs).

Section WithLoop.

(** The mempool copy and the subscription map live beside the loop's
    state; a [TxnotifyMsg] is serialised into the buffer that is sent. *)
Variable Ext : Type.
Variable apply_log : list Action -> Ext -> Ext.
Variable mempoolSubscriptions : Ext -> list Subscription.
Variable txnotify_buffer : list Entry -> Sndbuffer.

(** [Eventloop::handle_event(mempool::Log&&)]. *)
Definition handle_event_MempoolLog (log : list Action)
  : M (State Ext) unit :=
  bind (modify (fun s => set_ext Ext (apply_log log (ext Ext s)) s))
    (fun _ =>
  bind get (fun s =>
  for_each (notifications log (mempoolSubscriptions (ext Ext s)))
    (fun n => send Ext n.1 (txnotify_buffer n.2)))).

End WithLoop.

(** *** Properties *)

(** Heights that never decrease along a list. *)
Fixpoint ascending (l : list Z) : Prop :=
  match l with
  | [] => True
  | x :: l' => List.Forall (fun y => x <= y) l' /\ ascending l'
  end.

Definition below (h : Z) (e : Entry) : bool := transactionHeight e <? h.

Lemma insert_sorted_heights e l :
  ascending (List.map transactionHeight l) ->
  ascending (List.map transactionHeight (insert_sorted e l)).
Proof.
  induction l as [|x l IH]; intros Hs.
  - simpl. split; [constructor | exact I].
  - cbn [insert_sorted]. destruct Hs as [Hx Hl]. fold (List.map transactionHeight l) in *.
    unfold entry_less.
    destruct (Z.eqb_spec (transactionHeight e) (transactionHeight x)) as [Heq|Hne].
    + destruct (txid_ltb (first e) (first x)).
      * cbn [List.map ascending]. split; [|split; assumption].
        constructor; [lia|].
        eapply List.Forall_impl; [|exact Hx]. simpl. intros; lia.
      * cbn [List.map ascending]. split; [|apply IH, Hl].
        clear IH. induction l as [|y l IHl]; simpl.
        -- constructor; [lia | constructor].
        -- inversion Hx; subst. destruct Hl as [_ Hl].
           destruct (entry_less e y); cbn [List.map].
           ++ constructor; [lia|]. constructor; assumption.
           ++ constructor; [assumption|]. apply IHl; assumption.
    + destruct (Z.ltb_spec (transactionHeight e) (transactionHeight x)) as [Hlt|Hge].
      * cbn [List.map ascending]. split; [|split; assumption].
        constructor; [lia|].
        eapply List.Forall_impl; [|exact Hx]. simpl. intros; lia.
      * cbn [List.map ascending]. split; [|apply IH, Hl].
        clear IH. induction l as [|y l IHl]; simpl.
        -- constructor; [lia | constructor].
        -- inversion Hx; subst. destruct Hl as [_ Hl].
           destruct (entry_less e y); cbn [List.map].
           ++ constructor; [lia|]. constructor; assumption.
           ++ constructor; [assumption|]. apply IHl; assumption.
Qed.

Lemma sort_entries_heights l :
  ascending (List.map transactionHeight (sort_entries l)).
Proof.
  induction l as [|e l IH]; simpl; [exact I|].
  apply insert_sorted_heights, IH.
Qed.


Lemma Permutation_insert_sorted e l :
  Permutation (insert_sorted e l) (e :: l).
Proof.
  induction l as [|x l IH]; simpl; [reflexivity|].
  destruct (entry_less e x); [reflexivity|].
  rewrite IH. apply perm_swap.
Qed.

Lemma Permutation_sort_entries l : Permutation (sort_entries l) l.
Proof.
  induction l as [|e l IH]; simpl; [reflexivity|].
  rewrite Permutation_insert_sorted, IH. reflexivity.
Qed.

(** The number of entries below height [h]. *)
Definition count_below (h : Z) (entries : list Entry) : nat :=
  length (List.filter (below h) entries).

Lemma none_below h entries :
  List.Forall (fun y => h <= y) (List.map transactionHeight entries) ->
  List.filter (below h) entries = [].
Proof.
  induction entries as [|e entries IH]; intros H; [reflexivity|].
  cbn [List.map] in H. inversion H as [|? ? He Hrest]; subst.
  cbn [List.filter].
  destruct (below h e) eqn:Hb; unfold below in Hb;
    [apply Z.ltb_lt in Hb; lia|].
  apply IH, Hrest.
Qed.

(** Along entries sorted by height, the entries below [h] are a prefix. *)
Lemma firstn_count_below h entries :
  ascending (List.map transactionHeight entries) ->
  List.firstn (count_below h entries) entries = List.filter (below h) entries.
Proof.
  induction entries as [|e entries IH]; intros Hs; [reflexivity|].
  destruct Hs as [He Hs]. fold (List.map transactionHeight entries) in He, Hs.
  unfold count_below. cbn [List.filter].
  destruct (below h e) eqn:Hb; unfold below in Hb.
  - cbn [length List.firstn]. f_equal. apply IH, Hs.
  - apply Z.ltb_ge in Hb. rewrite none_below; [reflexivity|].
    eapply List.Forall_impl; [|exact He]. simpl. intros; lia.
Qed.

Lemma drain_spec i h subs :
  exists pre,
    subs = pre ++ (drain i h subs).2
    /\ (drain i h subs).1 = List.map (fun m : Subscription => (i, m.2)) pre
    /\ List.Forall (fun m : Subscription => m.1 <= h) pre
    /\ match (drain i h subs).2 with
       | [] => True
       | m :: _ => h < m.1
       end.
Proof.
  induction subs as [|m subs IH].
  - exists []. repeat split; constructor.
  - cbn [drain]. destruct (Z.ltb_spec h m.1) as [Hlt|Hge]; cbn [negb].
    + exists []. repeat split; [constructor | exact Hlt].
    + destruct IH as (pre & E & Hb & Hp & Hr).
      destruct (drain i h subs) as [bs remaining]. cbn [fst snd] in *.
      exists (m :: pre). split; [cbn [app]; f_equal; exact E|].
      split; [cbn [List.map]; f_equal; exact Hb|].
      split; [constructor; [lia | exact Hp] | exact Hr].
Qed.

Lemma ascending_app_r l1 l2 : ascending (l1 ++ l2) -> ascending l2.
Proof.
  induction l1 as [|x l1 IH]; simpl; [intros H; exact H|].
  intros [_ H]. apply IH, H.
Qed.

Lemma bounds_from_spec entries :
  forall i subs,
  ascending (List.map transactionHeight entries) ->
  ascending (List.map fst subs) ->
  bounds_from i entries subs
  = List.map (fun m : Subscription =>
                ((i + count_below m.1 entries)%nat, m.2)) subs.
Proof.
  induction entries as [|e entries IH]; intros i subs He Hs.
  - cbn [bounds_from]. apply List.map_ext. intros m.
    unfold count_below. cbn. rewrite Nat.add_0_r. reflexivity.
  - cbn [bounds_from]. destruct He as [He1 He2].
    fold (List.map transactionHeight entries) in He1, He2.
    destruct (drain_spec i (transactionHeight e) subs)
      as (pre & E & Hb & Hp & Hr).
    destruct (drain i (transactionHeight e) subs) as [bs remaining].
    cbn [fst snd] in *.
    assert (Hpre : bs = List.map (fun m : Subscription =>
                       ((i + count_below m.1 (e :: entries))%nat, m.2)) pre).
    { rewrite Hb. apply List.map_ext_in. intros m Hin.
      rewrite List.Forall_forall in Hp. specialize (Hp m Hin).
      unfold count_below. rewrite none_below; [cbn; rewrite Nat.add_0_r; reflexivity|].
      cbn [List.map]. constructor; [lia|].
      eapply List.Forall_impl; [|exact He1]. simpl. intros; lia. }
    rewrite E, List.map_app, <- Hpre.
    destruct remaining as [|m0 remaining]; [rewrite app_nil_r; reflexivity|].
    f_equal.
    assert (Hrem : ascending (List.map fst (m0 :: remaining))).
    { rewrite E, List.map_app in Hs. apply ascending_app_r in Hs. exact Hs. }
    rewrite IH by assumption.
    apply List.map_ext_in. intros m Hin.
    assert (Hm : transactionHeight e < m.1).
    { destruct Hin as [<-|Hin]; [exact Hr|].
      destruct Hrem as [Hall _]. fold (List.map fst remaining) in Hall.
      rewrite List.Forall_forall in Hall.
      specialize (Hall m.1 (List.in_map fst _ _ Hin)). simpl in Hall. lia. }
    unfold count_below. cbn [List.filter].
    destruct (below m.1 e) eqn:Hbe; unfold below in Hbe;
      [|apply Z.ltb_ge in Hbe; lia].
    cbn [length]. f_equal. lia.
Qed.

Lemma notifications_spec log subs :
  ascending (List.map fst subs) ->
  notifications log subs
  = List.map (fun m : Subscription =>
                (m.2, List.filter (below m.1)
                        (sort_entries (put_entries log)))) subs.
Proof.
  intros Hs.
  pose proof (sort_entries_heights (put_entries log)) as He.
  unfold notifications, subscription_bounds.
  destruct subs as [|m subs]; [reflexivity|].
  rewrite bounds_from_spec by assumption.
  rewrite List.map_map. apply List.map_ext. intros m'. cbn [fst snd].
  rewrite Nat.add_0_l, firstn_count_below by exact He. reflexivity.
Qed.

(** X21. With the subscriptions in the order of their heights, the handler
    notifies every subscription once, in that order, and the message for a
    subscription of height [h] lists exactly the entries put by the log
    whose transaction height is below [h], sorted by height; a subscriber
    for whom there is none is sent an empty list.  The entries sent are the
    [Put] entries of the log rearranged. *)
Theorem notifications_below_height log subs :
  ascending (List.map fst subs) ->
  let entries := sort_entries (put_entries log) in
  notifications log subs
  = List.map (fun m : Subscription => (m.2, List.filter (below m.1) entries))
      subs
  /\ ascending (List.map transactionHeight entries)
  /\ Permutation entries (put_entries log).
Proof.
  intros Hs entries. split; [exact (notifications_spec log subs Hs)|].
  split; [apply sort_entries_heights | apply Permutation_sort_entries].
Qed.

(** *** The handler *)

Section HandlerProperties.

Variable Ext : Type.
Variable apply_log : list Action -> Ext -> Ext.
Variable mempoolSubscriptions : Ext -> list Subscription.
Variable txnotify_buffer : list Entry -> Sndbuffer.

Lemma emit_all_nil (s : State Ext) : emit_all Ext [] s = s.
Proof. unfold emit_all. rewrite app_nil_r. destruct s; reflexivity. Qed.

Lemma emit_all_cons e l (s : State Ext) :
  emit_all Ext l (emit_effect Ext e s) = emit_all Ext (e :: l) s.
Proof. unfold emit_all, emit_effect; simpl. rewrite <- app_assoc. reflexivity. Qed.

Lemma send_all_ok (l : list (Z * list Entry)) (s : State Ext) :
  (forall n, In n l -> is_Some (conns Ext s !! n.1)) ->
  for_each l (fun n => send Ext n.1 (txnotify_buffer n.2)) s
  = Ok tt
      (emit_all Ext
         (List.map (fun n : Z * list Entry =>
                      AsyncSend n.1 (txnotify_buffer n.2))
            (List.filter (fun n : Z * list Entry =>
                            negb (is_erased (conns Ext s) n.1)) l))
         s).
Proof.
  revert s. induction l as [|n l IH]; intros s Hall.
  - cbn. unfold ret. rewrite emit_all_nil. reflexivity.
  - cbn [for_each List.filter]. unfold bind.
    destruct (Hall n (or_introl eq_refl)) as [con Hc].
    unfold send at 1. unfold bind, conn_of. rewrite Hc.
    unfold is_erased at 1. rewrite Hc.
    assert (Hrest : forall n', In n' l -> is_Some (conns Ext s !! n'.1))
      by (intros n' Hin; apply Hall; right; exact Hin).
    destruct (eventloop_erased con); cbn [negb].
    + unfold ret. apply IH, Hrest.
    + unfold emit, modify. rewrite IH by exact Hrest.
      cbn [List.map]. rewrite <- emit_all_cons. reflexivity.
Qed.

(** X22. [Eventloop::handle_event(mempool::Log&&)], with the subscriptions in
    the order of their heights and every subscribed connection still
    allocated: the log is applied to the mempool copy, and one
    [TxnotifyMsg] is posted for every subscription whose connection is not
    erased, in subscription order, listing the put entries below the
    subscription's height.  Nothing else in the loop changes. *)
Theorem mempool_log_notifies_subscribers log (s : State Ext) :
  let subs := mempoolSubscriptions (apply_log log (ext Ext s)) in
  let entries := sort_entries (put_entries log) in
  ascending (List.map fst subs) ->
  (forall m, In m subs -> is_Some (conns Ext s !! m.2)) ->
  exists s',
    handle_event_MempoolLog Ext apply_log mempoolSubscriptions
      txnotify_buffer log s = Ok tt s'
    /\ ext Ext s' = apply_log log (ext Ext s)
    /\ out Ext s'
       = out Ext s
         ++ List.map (fun m : Subscription =>
                        AsyncSend m.2
                          (txnotify_buffer (List.filter (below m.1) entries)))
              (List.filter (fun m : Subscription =>
                              negb (is_erased (conns Ext s) m.2)) subs)
    /\ conns Ext s' = conns Ext s /\ peers Ext s' = peers Ext s
    /\ timer Ext s' = timer Ext s.
Proof.
  intros subs entries Hs Hall.
  unfold handle_event_MempoolLog, bind, modify, get. cbn [ext set_ext].
  fold subs.
  pose proof (notifications_spec log subs Hs) as En.
  fold entries in En. rewrite En.
  rewrite send_all_ok.
  - eexists. split; [reflexivity|]. cbn.
    split; [reflexivity|]. split; [|repeat split; reflexivity].
    f_equal. clear En Hs Hall.
    induction subs as [|m subs IH]; [reflexivity|].
    cbn [List.map List.filter fst snd].
    destruct (negb (is_erased (conns Ext s) m.2)); cbn [List.map];
      rewrite IH; reflexivity.
  - intros n Hin. apply List.in_map_iff in Hin.
    destruct Hin as (m & <- & Hin). cbn [fst]. apply Hall, Hin.
Qed.

End HandlerProperties.

End WithTransactionId.

(** *** A log and four subscriptions *)

Definition example_log : list (Action Z) :=
  [Put Z (mk_entry Z 5 30); Erase Z 1; Put Z (mk_entry Z 2 10);
   Put Z (mk_entry Z 9 20)].

Definition example_subs : list Subscription := [(15, 1); (25, 2); (25, 3); (100, 4)].

Lemma example_subs_ascending : ascending (List.map fst example_subs).
Proof. simpl. repeat split; repeat constructor; lia. Qed.

Lemma notifications_below_height_witness :
  notifications Z Z.ltb example_log example_subs
  = [(1, [mk_entry Z 2 10]);
     (2, [mk_entry Z 2 10; mk_entry Z 9 20]);
     (3, [mk_entry Z 2 10; mk_entry Z 9 20]);
     (4, [mk_entry Z 2 10; mk_entry Z 9 20; mk_entry Z 5 30])].
Proof.
  exact (proj1 (notifications_below_height Z Z.ltb example_log example_subs
                  example_subs_ascending)).
Defined.

(** The loop [Example.s0] with subscriptions of connection 1 at heights 15
    and 25. *)
Definition subs_of_1 (_ : Example.Ext) : list Subscription := [(15, 1); (25, 1)].
Definition apply_nothing (_ : list (Action Z)) (x : Example.Ext) : Example.Ext := x.
Definition txnotify_tag (l : list (Entry Z)) : Sndbuffer :=
  SndOther (Z.of_nat (length l)).

Lemma mempool_log_notifies_subscribers_witness :
  exists s',
    handle_event_MempoolLog Z Z.ltb Example.Ext apply_nothing subs_of_1
      txnotify_tag example_log Example.s0 = Ok tt s'
    /\ ext Example.Ext s' = tt
    /\ out Example.Ext s' = [AsyncSend 1 (SndOther 1); AsyncSend 1 (SndOther 2)]
    /\ conns Example.Ext s' = conns Example.Ext Example.s0
    /\ peers Example.Ext s' = peers Example.Ext Example.s0
    /\ timer Example.Ext s' = timer Example.Ext Example.s0.
Proof.
  refine (mempool_log_notifies_subscribers Z Z.ltb Example.Ext apply_nothing
            subs_of_1 txnotify_tag example_log Example.s0 _ _).
  - simpl. repeat split; repeat constructor; lia.
  - intros m [<-|[<-|[]]]; exists Example.con1; reflexivity.
Defined.

End MempoolNotify.

(** ** API requests that join two answers ([api/interface.cpp]) *)

Module ApiRequest.

Section WithResult.

(** [APIHeadRequest] joins an [api::ChainHead] from the chain server with
    the synced flag from the event loop; [APIMiningRequest] does the same
    with a [ChainMiningTask].  [T] is the first answer's type. *)
Variable T : Type.

(** The argument the callback [cb] is invoked with, a
    [tl::expected<api::Head, Error>]: an error, or the value with the
    synced flag. *)
Definition Result : Type := (Error + T * bool)%type.

(** The members [sent], [head] (or [miningTask]) and [synced], and the
    invocations of [cb] so far. *)
Record t : Type :=
  mk { sent : bool; value : option T; synced : option bool;
       calls : list Result }.

(** A fresh request object. *)
Definition init : t := mk false None None [].

(** [all_set]. *)
Definition all_set (r : t) : bool :=
  match value r, synced r with
  | Some _, Some _ => true
  | _, _ => false
  end.

(** [try_cb]. *)
Definition try_cb (r : t) : t :=
  if negb (sent r) && all_set r
  then
    match value r, synced r with
    | Some v, Some b => mk true (value r) (synced r) (calls r ++ [inr (v, b)])
    | _, _ => r
    end
  else r.

(** [on(const tl::expected<T, Error>&&)]. *)
Definition on_expected (e : Error + T) (r : t) : t :=
  match e with
  | inr v => try_cb (mk (sent r) (Some v) (synced r) (calls r))
  | inl err =>
      if negb (sent r)
      then mk true (value r) (synced r) (calls r ++ [inl err])
      else r
  end.

(** [on(bool set_synced)]. *)
Definition on_synced (b : bool) (r : t) : t :=
  try_cb (mk (sent r) (value r) (Some b) (calls r)).

(** The two answers, as they arrive. *)
Inductive Answer : Type :=
| Expected (e : Error + T)
| Synced (b : bool).

Definition on (a : Answer) (r : t) : t :=
  match a with
  | Expected e => on_expected e r
  | Synced b => on_synced b r
  end.

Fixpoint deliver (answers : list Answer) (r : t) : t :=
  match answers with
  | [] => r
  | a :: rest => deliver rest (on a r)
  end.

(** *** Properties *)

(** While nothing was sent the callback has not run and an answer is
    missing; once something was sent the callback has run once. *)
Definition consistent (r : t) : Prop :=
  if sent r then length (calls r) = 1%nat
  else calls r = [] /\ all_set r = false.

Lemma try_cb_consistent r :
  (if sent r then length (calls r) = 1%nat else calls r = []) ->
  consistent (try_cb r).
Proof.
  unfold consistent, try_cb, all_set.
  destruct r as [[] [v|] [b|] l]; simpl; intros H; subst;
    try exact H; try (split; reflexivity).
Qed.

Lemma on_consistent a r : consistent r -> consistent (on a r).
Proof.
  intros H. destruct a as [[err|v]|b]; simpl.
  - unfold consistent in *. destruct (sent r) eqn:Hs; simpl.
    + rewrite Hs. exact H.
    + destruct H as [-> _]. reflexivity.
  - apply try_cb_consistent. simpl. unfold consistent in H.
    destruct (sent r); [exact H | apply H].
  - apply try_cb_consistent. simpl. unfold consistent in H.
    destruct (sent r); [exact H | apply H].
Qed.

Lemma deliver_consistent answers r : consistent r -> consistent (deliver answers r).
Proof.
  revert r. induction answers as [|a rest IH]; intros r H; [exact H|].
  apply IH, on_consistent, H.
Qed.

(** What has arrived stays: [sent] is never cleared, and a value or a
    synced flag that was stored is never dropped. *)
Definition grows (r r' : t) : Prop :=
  (sent r = true -> sent r' = true)
  /\ (is_Some (value r) -> is_Some (value r'))
  /\ (is_Some (synced r) -> is_Some (synced r')).

Lemma try_cb_grows r : grows r (try_cb r).
Proof.
  unfold grows, try_cb, all_set.
  destruct r as [[] [v|] [b|] l]; simpl; repeat split; intros H; exact H.
Qed.

Lemma grows_trans r1 r2 r3 : grows r1 r2 -> grows r2 r3 -> grows r1 r3.
Proof.
  intros (A1 & A2 & A3) (B1 & B2 & B3).
  repeat split; intros H; [apply B1, A1 | apply B2, A2 | apply B3, A3];
    exact H.
Qed.

Lemma on_grows a r : grows r (on a r).
Proof.
  destruct a as [[err|v]|b]; simpl.
  - unfold grows. destruct r as [[] v s l]; simpl; repeat split; intros H;
      try exact H; reflexivity.
  - eapply grows_trans; [|apply try_cb_grows].
    unfold grows; simpl. repeat split; intros H; try exact H.
    eexists; reflexivity.
  - eapply grows_trans; [|apply try_cb_grows].
    unfold grows; simpl. repeat split; intros H; try exact H.
    eexists; reflexivity.
Qed.

Lemma deliver_grows answers r : grows r (deliver answers r).
Proof.
  revert r. induction answers as [|a rest IH]; intros r.
  - repeat split; intros H; exact H.
  - eapply grows_trans; [apply on_grows | apply IH].
Qed.

Lemma deliver_has_value answers r v :
  In (Expected (inr v)) answers -> is_Some (value (deliver answers r)).
Proof.
  revert r. induction answers as [|a rest IH]; intros r; [intros []|].
  intros [->|Hin]; [|apply IH, Hin].
  apply (deliver_grows rest). simpl.
  destruct (try_cb_grows (mk (sent r) (Some v) (synced r) (calls r)))
    as (_ & H & _).
  apply H. eexists; reflexivity.
Qed.

Lemma deliver_has_synced answers r b :
  In (Synced b) answers -> is_Some (synced (deliver answers r)).
Proof.
  revert r. induction answers as [|a rest IH]; intros r; [intros []|].
  intros [->|Hin]; [|apply IH, Hin].
  apply (deliver_grows rest). simpl. unfold on_synced.
  destruct (try_cb_grows (mk (sent r) (value r) (Some b) (calls r)))
    as (_ & _ & H).
  apply H. eexists; reflexivity.
Qed.

Lemma deliver_error_sent answers r err :
  In (Expected (inl err)) answers -> sent (deliver answers r) = true.
Proof.
  revert r. induction answers as [|a rest IH]; intros r; [intros []|].
  intros [->|Hin]; [|apply IH, Hin].
  apply (deliver_grows rest). simpl. destruct (sent r) eqn:Hs; [exact Hs|].
  reflexivity.
Qed.

(** X23. An [APIHeadRequest] (or [APIMiningRequest]) invokes its callback at
    most once, whatever answers arrive and in whatever order; it has
    invoked it exactly once as soon as an error has arrived, or both a value
    and the synced flag have. *)
Theorem callback_runs_once answers :
  let r := deliver answers init in
  (length (calls r) <= 1)%nat
  /\ ((exists err, In (Expected (inl err)) answers)
      \/ ((exists v, In (Expected (inr v)) answers)
          /\ (exists b, In (Synced b) answers)) ->
      length (calls r) = 1%nat)
  /\ (calls r = [] <-> sent r = false).
Proof.
  intros r.
  assert (Hc : consistent r).
  { apply deliver_consistent. unfold consistent, init; simpl.
    split; reflexivity. }
  unfold consistent in Hc.
  split; [|split].
  - destruct (sent r); [rewrite Hc; constructor|].
    destruct Hc as [-> _]. simpl. lia.
  - intros [[err He]|[[v Hv] [b Hb]]].
    + pose proof (deliver_error_sent answers init err He) as Hs.
      fold r in Hs. rewrite Hs in Hc. exact Hc.
    + destruct (deliver_has_value answers init v Hv) as [v' Hv'].
      destruct (deliver_has_synced answers init b Hb) as [b' Hb'].
      fold r in Hv', Hb'.
      destruct (sent r); [exact Hc|].
      destruct Hc as [_ Hall]. unfold all_set in Hall.
      rewrite Hv', Hb' in Hall. discriminate.
  - destruct (sent r).
    + split; [|discriminate]. intros H. rewrite H in Hc. discriminate.
    + split; [reflexivity | intros _; apply Hc].
Qed.

End WithResult.
End ApiRequest.
